(** * COOLINGTANKS: the tank scraper (scraper.py)

    A shallow embedding of the three functions of [scraper.py] that carry
    logic of their own: [extract_latest] (three regular-expression scans of
    the page text), [post_to_base44] (the query parameters of the update
    call) and the forwarding loop at the end of [main].

    The program leans on three pieces of the Python runtime, which are
    modelled first:
    - [str] as a list of code points, with the character properties of the
      Unicode database taken as an interface ([UnicodeDB]);
    - [float(str)], the correctly rounded binary64 value of a decimal
      numeral, on the Standard Library's [spec_float];
    - [re.search], a backtracking matcher over the operators the three
      patterns use, returning the first success in backtracking order. *)

From Stdlib Require Import ZArith NArith List Bool Lia.
From Stdlib Require Import Strings.String Strings.Ascii.
From Stdlib Require Import Numbers.DecimalString.
From Stdlib Require Numbers.DecimalPos Numbers.DecimalZ.
From Stdlib Require Import Floats.SpecFloat.
From stdpp Require Import base option list gmap strings.

(** ** Python values *)

Module Py.

(** A character is a Unicode code point, a [str] a sequence of them. *)
Definition char := N.
Definition pystr := list char.

(** An ASCII literal of the source as a [str]. *)
Definition py (s : string) : pystr :=
  map N_of_ascii (list_ascii_of_string s).

(** The degree sign U+00B0 of the temperature pattern. *)
Definition degree : char := 176%N.

(** Exceptions that the modelled code can raise. [Timeout] and
    [ConnectionError] are the [requests] exceptions of a call that gets no
    response. *)
Inductive exn :=
  | TypeError
  | ValueError
  | Timeout
  | ConnectionError.

Inductive result (A : Type) :=
  | Ok (a : A)
  | Raise (e : exn).
Arguments Ok {A} a.
Arguments Raise {A} e.

Definition rbind {A B} (x : result A) (f : A -> result B) : result B :=
  match x with
  | Ok a => f a
  | Raise e => Raise e
  end.

(** *** The Unicode database

    CPython answers [\d], [\s], [\w], [re.IGNORECASE] and the digits of
    [float] from its Unicode database and from the [re] module's table of
    extra case equivalences. They belong to the interpreter, not to the
    program, and change with the Unicode version: they are an interface
    here. *)
Class UnicodeDB := {
  (** [Py_UNICODE_TODECIMAL]: the value of a decimal digit *)
  todecimal : char -> option N;
  (** [Py_UNICODE_ISSPACE] *)
  isspace : char -> bool;
  (** [Py_UNICODE_ISALPHA], [Py_UNICODE_ISDIGIT], [Py_UNICODE_ISNUMERIC] *)
  isalpha : char -> bool;
  isdigit : char -> bool;
  isnumeric : char -> bool;
  (** [Py_UNICODE_TOLOWER], [Py_UNICODE_TOUPPER] (simple case mappings) *)
  tolower : char -> char;
  toupper : char -> char;
  (** [re._casefix._EXTRA_CASES]: for a lowercase character, the other
      lowercase characters with the same uppercase *)
  extra_cases : char -> list char
}.

Section Classes.
Context {U : UnicodeDB}.

(** [Py_UNICODE_ISDECIMAL(ch)] is [Py_UNICODE_TODECIMAL(ch) >= 0]. *)
Definition isdecimal (c : char) : bool :=
  match todecimal c with Some _ => true | None => false end.

(** [Py_UNICODE_ISALNUM] *)
Definition isalnum (c : char) : bool :=
  isalpha c || isdecimal c || isdigit c || isnumeric c.

(** [SRE_UNI_IS_WORD]: alphanumeric or the underscore *)
Definition isword (c : char) : bool :=
  isalnum c || (c =? 95)%N.

(** [_sre.unicode_iscased] *)
Definition iscased (c : char) : bool :=
  negb (c =? tolower c)%N || negb (c =? toupper c)%N.
End Classes.

(** What the database says on Latin-1 (U+0000..U+00FF), where it has not
    changed since Unicode 1.1. *)
Definition within (lo hi c : N) : bool := ((lo <=? c) && (c <=? hi))%N.

Definition latin1_todecimal (c : char) : option N :=
  if within 48 57 c then Some (c - 48)%N else None.

Definition latin1_isspace (c : char) : bool :=
  within 9 13 c || within 28 32 c || (c =? 133)%N || (c =? 160)%N.

Definition latin1_isalpha (c : char) : bool :=
  within 65 90 c || within 97 122 c
  || (c =? 170)%N || (c =? 181)%N || (c =? 186)%N
  || within 192 214 c || within 216 246 c || within 248 255 c.

Definition latin1_isdigit (c : char) : bool :=
  within 48 57 c || (c =? 178)%N || (c =? 179)%N || (c =? 185)%N.

Definition latin1_isnumeric (c : char) : bool :=
  latin1_isdigit c || within 188 190 c.

Definition latin1_tolower (c : char) : char :=
  if within 65 90 c || within 192 214 c || within 216 222 c
  then (c + 32)%N else c.

Definition ascii_toupper (c : char) : char :=
  if within 97 122 c then (c - 32)%N else c.

(** The facts about the database that the proofs use. All hold in every
    version of Unicode. *)
Class UnicodeLaws (U : UnicodeDB) : Prop := {
  todecimal_latin1 c : (c < 256)%N -> todecimal c = latin1_todecimal c;
  isspace_latin1 c : (c < 256)%N -> isspace c = latin1_isspace c;
  isalpha_latin1 c : (c < 256)%N -> isalpha c = latin1_isalpha c;
  isdigit_latin1 c : (c < 256)%N -> isdigit c = latin1_isdigit c;
  isnumeric_latin1 c : (c < 256)%N -> isnumeric c = latin1_isnumeric c;
  tolower_latin1 c : (c < 256)%N -> tolower c = latin1_tolower c;
  toupper_ascii c : (c < 128)%N -> toupper c = ascii_toupper c;
  (** the extra cases of an ASCII letter lie outside Latin-1 (dotless i
      for [i], long s for [s]) *)
  extra_cases_ascii l x : (l < 128)%N -> In x (extra_cases l) -> (256 <= x)%N;
  (** a decimal digit has one of the values 0 to 9 *)
  todecimal_digit c d : todecimal c = Some d -> (d < 10)%N;
  (** no decimal digit is white space *)
  decimal_not_space c : isdecimal c = true -> isspace c = false
}.

(** The database cut down to Latin-1: characters from U+0100 on have no
    property and no case. The matcher run on a Latin-1 text with this
    database does what CPython does. *)
Definition latin1 : UnicodeDB := {|
  todecimal c := if (c <? 256)%N then latin1_todecimal c else None;
  isspace c := (c <? 256)%N && latin1_isspace c;
  isalpha c := (c <? 256)%N && latin1_isalpha c;
  isdigit c := (c <? 256)%N && latin1_isdigit c;
  isnumeric c := (c <? 256)%N && latin1_isnumeric c;
  tolower c := if (c <? 256)%N then latin1_tolower c else c;
  toupper c := if (c <? 128)%N then ascii_toupper c else c;
  extra_cases c := if (c =? 105)%N then [305%N] else []
|}.

(** *** float(str)

    [float] turns every decimal digit into its ASCII digit
    ([_PyUnicode_TransformDecimalAndSpaceToASCII]) and returns the binary64
    nearest to the numeral, ties to even ([_Py_dg_strtod]); a numeral too
    large for binary64 gives an infinity, not an error. *)

(** binary64: 53 bits of precision, exponent of the infinities 1024 *)
Definition float64 := spec_float.
Definition prec : Z := 53.
Definition emax : Z := 1024.

Definition pow10 (k : nat) : positive := Nat.iter k (Pos.mul 10) 1%positive.

(** The binary64 nearest to [(-1)^neg * n / 10^k]: the quotient of the
    two integers, rounded once. *)
Definition float_of_decimal (neg : bool) (n : N) (k : nat) : float64 :=
  match n with
  | N0 => S754_zero neg
  | Npos p =>
      SFdiv prec emax (S754_finite neg p 0) (S754_finite false (pow10 k) 0)
  end.

(** [10^308], on the scale of the smallest binary64 exponent. *)
Definition bound308 : Z := (10 ^ 308 * 2 ^ 1074)%Z.

(** [float(n)] of an [int] within the range of binary64. *)
Definition float_of_int (n : Z) : float64 := binary_normalize prec emax n 0 false.

(** Finite values, zeros included. *)
Definition is_finite (f : float64) : bool :=
  match f with
  | S754_zero _ | S754_finite _ _ _ => true
  | _ => false
  end.

(** The sign bit: [true] for a negative number, zero or infinity. *)
Definition sign_bit (f : float64) : option bool :=
  match f with
  | S754_zero s | S754_infinity s | S754_finite s _ _ => Some s
  | S754_nan => None
  end.

Section Float.
Context {U : UnicodeDB}.

(** The number written by a run of decimal digits, [None] when one of
    the characters is not a decimal digit. *)
Fixpoint digits_value (acc : N) (s : pystr) : option N :=
  match s with
  | [] => Some acc
  | c :: s' =>
      match todecimal c with
      | Some d => digits_value (10 * acc + d)%N s'
      | None => None
      end
  end.

(** The longest prefix of decimal digits, and what follows it. *)
Fixpoint span_decimal (s : pystr) : pystr * pystr :=
  match s with
  | c :: s' =>
      if isdecimal c
      then let '(ds, r) := span_decimal s' in (c :: ds, r)
      else ([], s)
  | [] => ([], [])
  end.

(** The numeral after its sign: digits, then optionally a point and
    digits, with a digit on one side of the point at least. *)
Definition float_of_body (neg : bool) (body : pystr) : result float64 :=
  let '(ip, rest) := span_decimal body in
  let fp :=
    match rest with
    | c :: f => if (c =? 46)%N then Some f else None   (* . *)
    | [] => Some []
    end in
  match fp with
  | Some fp =>
      match ip ++ fp, digits_value 0 (ip ++ fp) with
      | _ :: _, Some n => Ok (float_of_decimal neg n (length fp))
      | _, _ => Raise ValueError
      end
  | None => Raise ValueError
  end.

(** [float(s)] for a numeral [[sign] digits [. digits]]. The other forms
    that [float] reads (an exponent, underscores, blanks around the
    numeral, [inf], [nan]) are not modelled: the program never passes
    one, see [float_of_numeral], and this function answers [ValueError]
    on them as it does on a malformed numeral. *)
Definition float_of_str (s : pystr) : result float64 :=
  match s with
  | c :: t =>
      if (c =? 45)%N then float_of_body true t          (* - *)
      else if (c =? 43)%N then float_of_body false t    (* + *)
      else float_of_body false s
  | [] => float_of_body false s
  end.

(** [float(x)] where [x] may be [None]: [float(None)] is a [TypeError]. *)
Definition float (x : option pystr) : result float64 :=
  match x with
  | Some s => float_of_str s
  | None => Raise TypeError
  end.
End Float.

(** [str(n)] of an [int], as an f-string formats it. *)
Definition str_int (n : Z) : pystr :=
  py (NilZero.string_of_int (Z.to_int n)).

(** Truth value of a [str] or [None]: false for [None] and for [""]. *)
Definition truthy (x : option pystr) : bool :=
  match x with
  | Some (_ :: _) => true
  | _ => false
  end.

End Py.

(** ** The regular-expression engine

    [re.search] on the operators that the three patterns of the program
    use. A pattern is matched by backtracking: every operator yields its
    successes in the order in which the engine tries them, and the first
    success of the whole pattern is the match. *)

Module Re.
Import Py.

(** A one-character item. *)
Inductive charset :=
  | Literal (c : char)     (* an ordinary character of the pattern *)
  | CategoryDigit          (* \d *)
  | CategorySpace.         (* \s *)

Inductive regex :=
  | Empty
  | In (cs : charset)                                     (* one character *)
  | AtBoundary                                            (* \b *)
  | Cat (r1 r2 : regex)                                   (* r1 r2 *)
  | MaxRepeat (lo : nat) (hi : option nat) (cs : charset) (* x{lo,hi}, greedy *)
  | Optional (r : regex)                                  (* (?:r)?, greedy *)
  | Subpattern (g : nat) (r : regex).                     (* a capturing group *)

(** A position in the text: the characters before it, nearest first, the
    characters from it on, and the text of the groups closed so far. *)
Record state := State {
  before : pystr;
  after : pystr;
  marks : gmap nat pystr
}.

Definition advance (c : char) (rest : pystr) (st : state) : state :=
  State (c :: before st) rest (marks st).

Definition set_mark (g : nat) (s : pystr) (st : state) : state :=
  State (before st) (after st) (<[g := s]> (marks st)).

Section Engine.
Context {U : UnicodeDB}.

(** Whether the item accepts [c]. Under [re.IGNORECASE] a cased literal
    [l] of the pattern is compiled to the lowercase [lo] of [l] and its
    extra cases, and it accepts [c] when the lowercase of [c] is one of
    them ([LITERAL_UNI_IGNORE], [IN_UNI_IGNORE]). *)
Definition accepts (ignorecase : bool) (cs : charset) (c : char) : bool :=
  match cs with
  | Literal l =>
      if ignorecase && iscased l
      then
        let lo := tolower l in
        existsb (N.eqb (tolower c)) (lo :: extra_cases lo)
      else (c =? l)%N
  | CategoryDigit => isdecimal c
  | CategorySpace => isspace c
  end.

(** [\b]: exactly one of the characters on the two sides of the position
    is a word character; the two ends of the text count as non-word. *)
Definition isword_at (s : pystr) : bool :=
  match s with
  | c :: _ => isword c
  | [] => false
  end.

Definition at_boundary (st : state) : bool :=
  xorb (isword_at (before st)) (isword_at (after st)).

(** The text between two positions of one run. *)
Definition consumed (st st' : state) : pystr :=
  take (length (after st) - length (after st')) (after st).

(** Greedy repetition of a one-character item ([MAX_REPEAT_ONE]): as
    many characters as possible first, then one fewer at a time, never
    fewer than [lo] nor more than [hi]. *)
Definition stop_here (lo : nat) (st : state) (rest : pystr) : list state :=
  match lo with
  | O => [State (before st) rest (marks st)]
  | S _ => []
  end.

Definition may_take (hi : option nat) : bool :=
  match hi with
  | Some O => false
  | _ => true
  end.

Fixpoint repeat_one (ic : bool) (cs : charset) (lo : nat) (hi : option nat)
    (st : state) (rest : pystr) : list state :=
  match rest with
  | c :: rest' =>
      if may_take hi && accepts ic cs c
      then repeat_one ic cs (pred lo) (pred <$> hi)
             (advance c rest' st) rest' ++ stop_here lo st rest
      else stop_here lo st rest
  | [] => stop_here lo st rest
  end.

(** The successes of [r] from [st], in backtracking order. *)
Fixpoint runs (ic : bool) (r : regex) (st : state) : list state :=
  match r with
  | Empty => [st]
  | In cs =>
      match after st with
      | c :: rest => if accepts ic cs c then [advance c rest st] else []
      | [] => []
      end
  | AtBoundary => if at_boundary st then [st] else []
  | Cat r1 r2 => st' ← runs ic r1 st; runs ic r2 st'
  | MaxRepeat lo hi cs => repeat_one ic cs lo hi st (after st)
  | Optional r => runs ic r st ++ [st]
  | Subpattern g r =>
      (λ st', set_mark g (consumed st st') st') <$> runs ic r st
  end.

(** [re.search]: the first success at the leftmost position that has
    one; every position of the text is tried, the end included. *)
Fixpoint search_from (ic : bool) (r : regex) (seen rest : pystr) : option state :=
  match runs ic r (State seen rest ∅) with
  | m :: _ => Some m
  | [] =>
      match rest with
      | c :: rest' => search_from ic r (c :: seen) rest'
      | [] => None
      end
  end.

Definition search (ic : bool) (r : regex) (text : pystr) : option state :=
  search_from ic r [] text.
End Engine.

(** [m.group(g)]: [None] for a group that took no part in the match. *)
Definition group (m : state) (g : nat) : option pystr := marks m !! g.

(** Pattern syntax. *)
Definition lit (c : string) : regex :=
  foldr (λ c r, Cat (In (Literal c)) r) Empty (py c).
Definition chr (c : char) : regex := In (Literal c).
Definition digits (n : nat) : regex := MaxRepeat n (Some n) CategoryDigit.
Definition plus (cs : charset) : regex := MaxRepeat 1 None cs.
Definition star (cs : charset) : regex := MaxRepeat 0 None cs.
Fixpoint seq (rs : list regex) : regex :=
  match rs with
  | [] => Empty
  | [r] => r
  | r :: rs' => Cat r (seq rs')
  end.

End Re.

(** ** scraper.py *)

Module Scraper.
Import Py Re.

(** [r"\b(\d{4}-\d{2}-\d{2}\s+\d{2}:\d{2}:\d{2})\b"] *)
Definition ts_pattern : regex :=
  seq [ AtBoundary;
        Subpattern 1
          (seq [ digits 4; lit "-"; digits 2; lit "-"; digits 2;
                 plus CategorySpace;
                 digits 2; lit ":"; digits 2; lit ":"; digits 2 ]);
        AtBoundary ].

(** [r"(-?\d+(?:\.\d+)?)\s*°\s*C"] *)
Definition temp_pattern : regex :=
  seq [ Subpattern 1
          (seq [ Optional (lit "-"); plus CategoryDigit;
                 Optional (Cat (lit ".") (plus CategoryDigit)) ]);
        star CategorySpace; chr degree; star CategorySpace; lit "C" ].

(** [r"\bEverything\s+ok\b"], compiled with [re.IGNORECASE] *)
Definition ok_pattern : regex :=
  seq [ AtBoundary; lit "Everything"; plus CategorySpace; lit "ok"; AtBoundary ].

Section Extract.
Context {U : UnicodeDB}.

(** [extract_latest(page_text)]: the triple
    [(temperature_c, timestamp, status)], or the exception raised. *)
Definition extract_latest (page_text : pystr)
    : result (option float64 * option pystr * option pystr) :=
  let ts_match := search false ts_pattern page_text in
  let timestamp :=
    match ts_match with Some m => group m 1 | None => None end in
  let temp_match := search false temp_pattern page_text in
  rbind
    match temp_match with
    | Some m => rbind (float (group m 1)) (λ f, Ok (Some f))
    | None => Ok None
    end
    (λ temperature_c,
      let status := None in
      let ok_match := search true ok_pattern page_text in
      let status :=
        match ok_match with
        | Some _ => Some (py "Everything ok")
        | None => status
        end in
      Ok (temperature_c, timestamp, status)).
End Extract.

(** *** Readings and the update call *)

(** The values that a reading and the query parameters hold. *)
Inductive value :=
  | VInt (n : Z)
  | VFloat (f : float64)
  | VStr (s : pystr)
  | VNone.

Definition str_or_none (x : option pystr) : value :=
  match x with Some s => VStr s | None => VNone end.

Definition float_or_none (x : option float64) : value :=
  match x with Some f => VFloat f | None => VNone end.

(** The dict that [fetch_one_tank] returns: its five keys are always
    there, [None] is a value. *)
Record reading := Reading {
  tank_id : Z;
  tank_code : option pystr;
  temperature_c : option float64;
  last_update : option pystr;
  status_text : option pystr
}.

Section Fetch.
Context {U : UnicodeDB}.

(** [fetch_one_tank], given the text that the browser returned for the
    tank's page. *)
Definition fetch_one_tank (text : pystr) (tank_id : Z) (tank_code : pystr)
    : result reading :=
  rbind (extract_latest text) (λ '(temperature_c, timestamp, status),
    Ok (Reading tank_id (Some tank_code) temperature_c timestamp status)).
End Fetch.

(** The [params] dict of [post_to_base44]. *)
Definition build_params (webhook_key : pystr) (payload : reading)
    : gmap string value :=
  let params : gmap string value :=
    <["temperature" := float_or_none (temperature_c payload)]>
      (<["tank_id" := VInt (tank_id payload)]> ∅) in
  let params :=
    if truthy (Some webhook_key)
    then <["key" := VStr webhook_key]> params else params in
  let params :=
    if truthy (tank_code payload)
    then <["tank_code" := str_or_none (tank_code payload)]> params else params in
  let params :=
    if truthy (last_update payload)
    then <["last_update" := str_or_none (last_update payload)]> params else params in
  let params :=
    if truthy (status_text payload)
    then <["status_text" := str_or_none (status_text payload)]> params else params in
  params.

(** A call of [requests.get] and its response. *)
Record request := Request {
  url : pystr;
  params : gmap string value;
  timeout : Z
}.

Record response := Response {
  status_code : Z;
  text : pystr
}.

(** What a run has done so far: the lines printed and the calls of
    [requests.get] made, oldest first. *)
Record world := World {
  stdout : list pystr;
  calls : list request
}.

(** A command changes the world and returns a value or raises; what was
    printed and sent before an exception stays. *)
Definition M (A : Type) : Type := world -> result A * world.

#[global] Instance M_ret : MRet M := λ A a w, (Ok a, w).
#[global] Instance M_bind : MBind M := λ A B f m w,
  match m w with
  | (Ok a, w') => f a w'
  | (Raise e, w') => (Raise e, w')
  end.

Definition print (line : pystr) : M unit :=
  λ w, (Ok tt, World (stdout w ++ [line]) (calls w)).

(** [for x in l: body] *)
Fixpoint for_each {A} (l : list A) (body : A -> M unit) : M unit :=
  match l with
  | [] => mret tt
  | x :: l' => body x ≫= λ _, for_each l' body
  end.

Definition skip_line (r : reading) : pystr :=
  py "Skip tank " ++ str_int (tank_id r) ++ py " - temperature not found".

Definition update_line (r : reading) (code : Z) (text : pystr) : pystr :=
  py "UpdateTank tank_id=" ++ str_int (tank_id r) ++ py " -> "
    ++ str_int code ++ py " " ++ text.

Section Forward.
(** The network: what [requests.get] answers to a call, given the calls
    made before it. It returns a response, of any status, or raises. *)
Variable requests_get : list request -> request -> result response.

Definition get (rq : request) : M response :=
  λ w, (requests_get (calls w) rq, World (stdout w) (calls w ++ [rq])).

(** [post_to_base44(update_url, webhook_key, payload)] *)
Definition post_to_base44 (update_url webhook_key : pystr) (payload : reading)
    : M (Z * pystr) :=
  let params := build_params webhook_key payload in
  r ← get (Request update_url params 30);
  mret (status_code r, take 200 (text r)).

(** The loop [for r in results] at the end of [main]. *)
Definition push_loop (base44_update_url webhook_key : pystr)
    (results : list reading) : M unit :=
  for_each results (λ r,
    match temperature_c r with
    | None => print (skip_line r)
    | Some _ =>
        '(code, text) ← post_to_base44 base44_update_url webhook_key r;
        print (update_line r code text)
    end).

(** The end of [main], from [if base44_update_url:] on;
    [base44_update_url] is [None] when the variable is not set. *)
Definition push_updates (base44_update_url : option pystr)
    (webhook_key : pystr) (results : list reading) : M unit :=
  match base44_update_url with
  | Some (c :: u) =>
      print (10%N :: py "Pushing to Base44...") ≫= λ _,
      push_loop (c :: u) webhook_key results
  | _ => mret tt
  end.
End Forward.

End Scraper.

(** ** What the patterns match

    The words of a pattern, independently of the order in which the engine
    finds them: [den ic r l w a mk mk'] says that [r] matches the word [w]
    when [l] is the text before it (nearest character first) and [a] the
    text after it, and that the groups go from [mk] to [mk']. *)

Module ReSpec.
Import Py Re.

Section Den.
Context {U : UnicodeDB}.

Definition bounded (hi : option nat) (n : nat) : Prop :=
  match hi with
  | Some h => n ≤ h
  | None => True
  end.

Definition boundary (l a : pystr) : Prop :=
  isword_at l ≠ isword_at a.

Definition all_accepted (ic : bool) (cs : charset) (w : pystr) : Prop :=
  Forall (λ c, accepts ic cs c = true) w.

Fixpoint den (ic : bool) (r : regex) (l w a : pystr)
    (mk mk' : gmap nat pystr) : Prop :=
  match r with
  | Empty => w = [] ∧ mk' = mk
  | In cs => ∃ c, w = [c] ∧ accepts ic cs c = true ∧ mk' = mk
  | AtBoundary => w = [] ∧ boundary l a ∧ mk' = mk
  | Cat r1 r2 =>
      ∃ w1 w2 mk1, w = w1 ++ w2
        ∧ den ic r1 l w1 (w2 ++ a) mk mk1
        ∧ den ic r2 (reverse w1 ++ l) w2 a mk1 mk'
  | MaxRepeat lo hi cs =>
      all_accepted ic cs w ∧ lo ≤ length w ∧ bounded hi (length w) ∧ mk' = mk
  | Optional r => den ic r l w a mk mk' ∨ (w = [] ∧ mk' = mk)
  | Subpattern g r => ∃ mk1, den ic r l w a mk mk1 ∧ mk' = <[g := w]> mk1
  end.

(** [st'] is reached from [st] by reading the word [w]. *)
Definition reads (st : state) (w : pystr) (st' : state) : Prop :=
  after st = w ++ after st' ∧ before st' = reverse w ++ before st.

(** The pattern occurs in [text] as the word [w], after [pre] and before
    [post], with the groups [mk]. *)
Definition occurs (ic : bool) (r : regex) (text pre w post : pystr)
    (mk : gmap nat pystr) : Prop :=
  text = pre ++ w ++ post ∧ den ic r (reverse pre) w post ∅ mk.

(** No occurrence starts before position [n] of the text. *)
Definition none_before (ic : bool) (r : regex) (text : pystr) (n : nat) : Prop :=
  ∀ pre w post mk, occurs ic r text pre w post mk → n ≤ length pre.
End Den.

End ReSpec.

(** ** The three textual shapes, in the words of the specification *)

Module Shapes.
Import Py Re ReSpec Scraper.

Section Shapes.
Context {U : UnicodeDB}.

Definition decimals (w : pystr) : Prop := Forall (λ c, isdecimal c = true) w.
Definition spaces (w : pystr) : Prop := Forall (λ c, isspace c = true) w.

(** [n] digits *)
Definition digits_n (n : nat) (w : pystr) : Prop := length w = n ∧ decimals w.

(** Optional leading [-], one or more digits, optional [.] and one or
    more digits. *)
Definition numeral (num : pystr) : Prop :=
  ∃ sign ip fp, num = sign ++ ip ++ fp
    ∧ (sign = [] ∨ sign = py "-")
    ∧ ip ≠ [] ∧ decimals ip
    ∧ (fp = [] ∨ ∃ fd, fp = py "." ++ fd ∧ fd ≠ [] ∧ decimals fd).

(** A numeral [num], optional white space, the degree sign, optional
    white space, the letter C. *)
Definition temp_shape (num w : pystr) : Prop :=
  ∃ ws1 ws2, w = num ++ ws1 ++ [degree] ++ ws2 ++ py "C"
    ∧ numeral num ∧ spaces ws1 ∧ spaces ws2.

(** 4 digits, [-], 2 digits, [-], 2 digits, one or more white space,
    2 digits, [:], 2 digits, [:], 2 digits. *)
Definition ts_shape (w : pystr) : Prop :=
  ∃ y mo d ws h mi s,
    w = y ++ py "-" ++ mo ++ py "-" ++ d ++ ws ++ h ++ py ":" ++ mi ++ py ":" ++ s
    ∧ digits_n 4 y ∧ digits_n 2 mo ∧ digits_n 2 d
    ∧ ws ≠ [] ∧ spaces ws
    ∧ digits_n 2 h ∧ digits_n 2 mi ∧ digits_n 2 s.

(** [c] is the letter [l] of the pattern up to case, as [re.IGNORECASE]
    compares: their lowercases are equal, or the lowercase of [c] is an
    extra case of that of [l]; a letter without case is itself only. *)
Definition caseless (c l : char) : Prop :=
  if iscased l
  then tolower c = tolower l ∨ tolower c ∈ extra_cases (tolower l)
  else c = l.

(** The phrase [Everything], one or more white space, [ok], up to case. *)
Definition ok_shape (w : pystr) : Prop :=
  ∃ e ws o, w = e ++ ws ++ o
    ∧ Forall2 caseless e (py "Everything")
    ∧ ws ≠ [] ∧ spaces ws
    ∧ Forall2 caseless o (py "ok").

(** Word characters at the end of [l] and at the start of [r], both in
    text order; an empty side has none. *)
Definition word_end (l : pystr) : bool :=
  match last l with Some c => isword c | None => false end.
Definition word_start (r : pystr) : bool :=
  match r with c :: _ => isword c | [] => false end.

(** [w] stands in [pre ++ w ++ post] between two word boundaries. *)
Definition word_delimited (pre w post : pystr) : Prop :=
  word_end pre ≠ word_start (w ++ post)
  ∧ word_end (pre ++ w) ≠ word_start post.

(** [text] contains [w] after [pre]. *)
Definition at_position (text pre w : pystr) : Prop :=
  ∃ post, text = pre ++ w ++ post.

(** The occurrences that each scan looks for. *)
Definition temp_at (text pre num : pystr) : Prop :=
  ∃ w, at_position text pre w ∧ temp_shape num w.

Definition ts_at (text pre w : pystr) : Prop :=
  ∃ post, text = pre ++ w ++ post ∧ ts_shape w ∧ word_delimited pre w post.

Definition ok_at (text pre w : pystr) : Prop :=
  ∃ post, text = pre ++ w ++ post ∧ ok_shape w ∧ word_delimited pre w post.

(** [pre] is the leftmost place at which [occ] holds. *)
Definition leftmost (occ : pystr → pystr → Prop) (pre : pystr) : Prop :=
  ∀ pre' x, occ pre' x → length pre ≤ length pre'.

(** The three scans of [extract_latest], one by one. *)
Definition scan_temperature (text : pystr) : result (option float64) :=
  match search false temp_pattern text with
  | Some m => rbind (float (group m 1)) (λ f, Ok (Some f))
  | None => Ok None
  end.

Definition scan_timestamp (text : pystr) : option pystr :=
  match search false ts_pattern text with
  | Some m => group m 1
  | None => None
  end.

Definition scan_status (text : pystr) : option pystr :=
  match search true ok_pattern text with
  | Some _ => Some (py "Everything ok")
  | None => None
  end.

(** [any casing]: the ASCII letters of [w] are those of [l], each in
    upper or in lower case, and the other characters are the same. *)
Definition ascii_swapcase (c : char) : char :=
  if within 65 90 c then (c + 32)%N
  else if within 97 122 c then (c - 32)%N else c.

Definition ascii_casing (w l : pystr) : Prop :=
  Forall2 (λ c x, c = x ∨ c = ascii_swapcase x) w l.

(** No degree sign of [text] is followed, after optional white space, by
    the capital letter C: whatever degree markings the text has, none is
    of the C form. *)
Definition no_degree_C (text : pystr) : Prop :=
  ∀ pre ws post, text = pre ++ [degree] ++ ws ++ py "C" ++ post → ¬ spaces ws.
End Shapes.

(** The call that [post_to_base44] makes for a reading. *)
Definition update_request (update_url webhook_key : pystr) (r : reading) : request :=
  Request update_url (build_params webhook_key r) 30.

(** A parameter that is sent only when its source is neither [None] nor
    empty. *)
Definition when_nonempty (x : option pystr) : option value :=
  match x with
  | Some (c :: s) => Some (VStr (c :: s))
  | _ => None
  end.

Definition has_temperature (r : reading) : bool :=
  match temperature_c r with
  | Some _ => true
  | None => false
  end.

(** The world after one more line, after one more call. *)
Definition printed (line : pystr) (w : world) : world :=
  World (stdout w ++ [line]) (calls w).
Definition called (rq : request) (w : world) : world :=
  World (stdout w) (calls w ++ [rq]).

(** A numeral too large for binary64: 1 followed by 309 zeros. *)
Definition huge_numeral : pystr := py "1" ++ replicate 309 48%N.

End Shapes.

(** ** Latin-1 texts

    On a text of Latin-1 characters the engine asks the database about
    Latin-1 characters only, so that every database that obeys the laws
    gives the same run. *)

Module Latin1.
Import Py Re.

Definition latin1_text (s : pystr) : Prop := Forall (λ c, (c < 256)%N) s.

(** Under [re.IGNORECASE] the literals of the pattern must be ASCII;
    without it a literal is compared as it is. *)
Definition ascii_charset (ic : bool) (cs : charset) : bool :=
  match cs with
  | Literal l => negb ic || (l <? 128)%N
  | _ => true
  end.

Fixpoint ascii_pattern (ic : bool) (r : regex) : bool :=
  match r with
  | Empty | AtBoundary => true
  | In cs | MaxRepeat _ _ cs => ascii_charset ic cs
  | Cat r1 r2 => ascii_pattern ic r1 && ascii_pattern ic r2
  | Optional r | Subpattern _ r => ascii_pattern ic r
  end.

(** What [accepts] and [isword] come to on a Latin-1 character. *)
Definition latin1_accepts (ic : bool) (cs : charset) (c : char) : bool :=
  match cs with
  | Literal l =>
      if ic && (negb (l =? latin1_tolower l)%N || negb (l =? ascii_toupper l)%N)
      then (latin1_tolower c =? latin1_tolower l)%N
      else (c =? l)%N
  | CategoryDigit => within 48 57 c
  | CategorySpace => latin1_isspace c
  end.

Definition latin1_isword (c : char) : bool :=
  latin1_isalpha c || within 48 57 c || latin1_isdigit c || latin1_isnumeric c
  || (c =? 95)%N.

End Latin1.

(** ** Sample inputs *)

Module Samples.
Import Py Re Scraper Shapes.

(** The page text of the end-to-end scenario. *)
Definition page : pystr :=
  py "... 7.00" ++ degree :: py "C ... 2026-01-01 12:22:09 ... Everything ok ...".

Definition seven_degrees : pystr := py "7.00" ++ degree :: py "C".
Definition minus_two : pystr := py "-2" ++ degree :: py "C".

(** A page whose temperature has 310 digits. *)
Definition huge_page : pystr := huge_numeral ++ degree :: py "C".

Definition tank_a : reading :=
  Reading 1 (Some (py "A")) (Some (float_of_int 7))
    (Some (py "2026-01-01 12:22:09")) (Some (py "Everything ok")).

(** A tank at 0.0 degrees and a tank whose page showed no temperature. *)
Definition tank_zero : reading :=
  Reading 2 (Some (py "B")) (Some (S754_zero false)) None None.

Definition tank_blind : reading :=
  Reading 3 (Some (py "C")) None None None.

Definition endpoint : pystr := py "https://base44.example/UpdateTank".

(** A network that answers 200, one that answers 503, one that times
    out. *)
Definition answers (code : Z) (body : string)
    : list request → request → result response :=
  λ _ _, Ok (Response code (py body)).

Definition times_out : list request → request → result response :=
  λ _ _, Raise Timeout.

Definition start : world := World [] [].

End Samples.

(** ** The tank page and the report *)

Module Tanks.
Import Py Scraper Shapes.

Definition BASE_URL : pystr := py "http://icontrol.paccool.be".

(** [f"{BASE_URL}/en/tankdetail/{tank_id}/{tank_code}"], the address that
    [fetch_one_tank] opens. *)
Definition tank_detail_url (tank_id : Z) (tank_code : pystr) : pystr :=
  BASE_URL ++ py "/en/tankdetail/" ++ str_int tank_id ++ py "/" ++ tank_code.

(** The characters of a decimal [int]: a digit or the minus sign. *)
Definition int_char (c : char) : bool := within 48 57 c || (c =? 45)%N.

(** [line] is the line of the forwarding loop for the reading [r]: the
    skip line, or the line of an update with some status and at most 200
    characters of some body. *)
Definition reported (r : reading) (line : pystr) : Prop :=
  match temperature_c r with
  | None => line = skip_line r
  | Some _ => ∃ code body, line = update_line r code (take 200 body)
  end.

(** The calls for the readings of [l] that have a temperature, in the
    order of [l]. *)
Definition updates (update_url webhook_key : pystr) (l : list reading)
    : list request :=
  update_request update_url webhook_key
    <$> filter (λ r, has_temperature r = true) l.

(** The first line of the forwarding part of [main]. *)
Definition pushing_line : pystr := 10%N :: py "Pushing to Base44...".

(** [BASE44_UPDATE_URL] is not set, or set to the empty string. *)
Definition no_url (base44_update_url : option pystr) : Prop :=
  base44_update_url = None ∨ base44_update_url = Some [].

(** The parts of a numeral as the page writes it: a minus sign or
    nothing; nothing, or a point and the digits [fd] after it. *)
Definition sign_of (neg : bool) : pystr := if neg then py "-" else [].

Definition fraction (fd : pystr) : pystr :=
  match fd with
  | [] => []
  | _ :: _ => py "." ++ fd
  end.

End Tanks.

Import Py Re ReSpec.

(** * The engine finds exactly the words of the pattern *)

Section EngineFacts.
Context {U : UnicodeDB}.

Lemma elem_of_stop_here lo st rest st' :
  st' ∈ stop_here lo st rest ↔ lo = 0 ∧ st' = State (before st) rest (marks st).
Proof.
  unfold stop_here. destruct lo.
  - rewrite list_elem_of_singleton. naive_solver.
  - rewrite elem_of_nil. naive_solver.
Qed.

Lemma bounded_0 hi : bounded hi 0.
Proof. destruct hi; simpl; lia. Qed.

Lemma bounded_pred hi n :
  may_take hi = true → bounded (pred <$> hi) n ↔ bounded hi (S n).
Proof. destruct hi as [[|h]|]; simpl; intros; try done. lia. Qed.

Lemma bounded_no_take hi n : may_take hi = false → bounded hi n → n = 0.
Proof. destruct hi as [[|h]|]; simpl; intros; try done. lia. Qed.

Lemma elem_of_repeat_one ic cs rest : ∀ lo hi st st',
  st' ∈ repeat_one ic cs lo hi st rest ↔
  ∃ w, rest = w ++ after st'
     ∧ before st' = reverse w ++ before st
     ∧ marks st' = marks st
     ∧ all_accepted ic cs w
     ∧ lo ≤ length w ∧ bounded hi (length w).
Proof.
  assert (Hstop : ∀ lo hi st rest st',
    st' ∈ stop_here lo st rest ↔
    ∃ w, w = [] ∧ rest = w ++ after st' ∧ before st' = reverse w ++ before st
       ∧ marks st' = marks st ∧ all_accepted ic cs w
       ∧ lo ≤ length w ∧ bounded hi (length w)).
  { intros lo hi st rest' st'. rewrite elem_of_stop_here. split.
    - intros [-> ->]. exists []. simpl. repeat split; auto.
      + constructor.
      + apply bounded_0.
    - intros (w & -> & Hr & Hb & Hm & _ & Hlo & _). simpl in *.
      split; [lia|]. destruct st'; simpl in *; by subst. }
  induction rest as [|c rest IH]; intros lo hi st st'; simpl.
  - rewrite Hstop. split.
    + intros (w & _ & H). eauto.
    + intros (w & Hw & H). exists w. split; [|by eauto].
      symmetry in Hw. by apply app_eq_nil in Hw as [-> _].
  - destruct (may_take hi) eqn:Hhi; simpl;
      [destruct (accepts ic cs c) eqn:Hc|].
    + rewrite elem_of_app, IH, Hstop. split.
      * intros [(w & -> & Hb & Hm & Hall & Hlo & Hbd)|(w & _ & H)]; [|eauto].
        exists (c :: w). simpl in *. rewrite reverse_cons, <- (assoc_L (++)).
        repeat split; auto; [by constructor|lia|by apply bounded_pred].
      * intros (w & Hw & Hb & Hm & Hall & Hlo & Hbd).
        destruct w as [|c' w]; [right; exists []; by repeat split|left].
        simpl in Hw. injection Hw as <- ->.
        exists w. simpl in *. rewrite reverse_cons, <- (assoc_L (++)) in Hb.
        apply Forall_cons in Hall as [_ Hall].
        repeat split; auto; [lia|by apply bounded_pred].
    + rewrite Hstop. split; [intros (w & _ & H); by eauto|].
      intros (w & Hw & Hb & Hm & Hall & Hlo & Hbd).
      destruct w as [|c' w]; [exists []; by repeat split|].
      simpl in Hw. injection Hw as <- ->.
      apply Forall_cons in Hall as [Hall _]. congruence.
    + rewrite Hstop. split; [intros (w & _ & H); by eauto|].
      intros (w & Hw & Hb & Hm & Hall & Hlo & Hbd).
      apply bounded_no_take in Hbd; [|done].
      apply nil_length_inv in Hbd as ->. exists [].
      repeat split; auto using bounded_0.
Qed.

Lemma state_eq (a b : state) :
  before a = before b → after a = after b → marks a = marks b → a = b.
Proof. destruct a, b; simpl; by intros -> -> ->. Qed.

Lemma reads_nil st st' : reads st [] st' ↔ after st = after st' ∧ before st' = before st.
Proof. unfold reads. by simpl. Qed.

Lemma reads_app st w1 y w2 st' :
  reads st w1 y → reads y w2 st' → reads st (w1 ++ w2) st'.
Proof.
  unfold reads. intros [Ha Hb] [Ha' Hb'].
  rewrite Ha, Ha', Hb', Hb, reverse_app. by rewrite !(assoc_L (++)).
Qed.

Lemma consumed_reads st w st' : reads st w st' → consumed st st' = w.
Proof.
  intros [Ha _]. unfold consumed. rewrite Ha, length_app.
  replace (length w + length (after st') - length (after st')) with (length w) by lia.
  by rewrite take_app_length.
Qed.

Lemma at_boundary_iff st :
  at_boundary st = true ↔ boundary (before st) (after st).
Proof.
  unfold at_boundary, boundary.
  destruct (isword_at (before st)), (isword_at (after st)); simpl; split; congruence.
Qed.

(** The engine is sound and complete for [den]: the successes of [r]
    from [st] are the states reached by reading a word of [r]. *)
Lemma elem_of_runs ic r : ∀ st st',
  st' ∈ runs ic r st ↔
  ∃ w, reads st w st' ∧ den ic r (before st) w (after st') (marks st) (marks st').
Proof.
  induction r as [|cs| |r1 IH1 r2 IH2|lo hi cs|r IH|g r IH]; intros st st'; simpl.
  - rewrite list_elem_of_singleton. split.
    + intros ->. exists []. by rewrite reads_nil.
    + intros (w & Hr & -> & Hm). apply reads_nil in Hr as [Ha Hb].
      by apply state_eq.
  - destruct (after st) as [|c rest] eqn:Ha.
    + rewrite elem_of_nil. split; [done|].
      intros (w & [Hr _] & c & -> & _). by rewrite Ha in Hr.
    + destruct (accepts ic cs c) eqn:Hc.
      * rewrite list_elem_of_singleton. split.
        -- intros ->. exists [c]. split; [by split|]. by exists c.
        -- intros (w & [Hr Hb] & c' & -> & _ & Hm).
           rewrite Ha in Hr. simpl in Hr. injection Hr as <- Hr.
           apply state_eq; by simpl.
      * rewrite elem_of_nil. split; [done|].
        intros (w & [Hr _] & c' & -> & Hc' & _).
        rewrite Ha in Hr. simpl in Hr. injection Hr as <- _. congruence.
  - destruct (at_boundary st) eqn:Hbd.
    + rewrite list_elem_of_singleton. apply at_boundary_iff in Hbd. split.
      * intros ->. exists []. by rewrite reads_nil.
      * intros (w & Hr & -> & _ & Hm). apply reads_nil in Hr as [Ha Hb].
        by apply state_eq.
    + rewrite elem_of_nil. split; [done|].
      intros (w & Hr & -> & Hbd' & _). apply reads_nil in Hr as [Ha Hb].
      simpl in Ha. rewrite <- Ha in Hbd'. apply at_boundary_iff in Hbd'. congruence.
  - rewrite list_elem_of_bind. split.
    + intros (y & (w2 & Hr2 & H2)%IH2 & (w1 & Hr1 & H1)%IH1).
      exists (w1 ++ w2). split; [by eapply reads_app|].
      exists w1, w2, (marks y). split; [done|].
      destruct Hr1 as [Ha1 Hb1], Hr2 as [Ha2 Hb2].
      rewrite <- Ha2, <- Hb1. by split.
    + intros (w & [Ha Hb] & w1 & w2 & mk1 & -> & H1 & H2).
      exists (State (reverse w1 ++ before st) (w2 ++ after st') mk1).
      rewrite IH1, IH2. split.
      * exists w2. split; [|done]. split; simpl; [done|].
        by rewrite Hb, reverse_app, (assoc_L (++)).
      * exists w1. split; [|done]. split; simpl; [|done].
        by rewrite Ha, (assoc_L (++)).
  - rewrite elem_of_repeat_one. split.
    + intros (w & Ha & Hb & Hm & H). exists w. split; [by split|].
      destruct H as (? & ? & ?). by repeat split.
    + intros (w & [Ha Hb] & Hall & Hlo & Hhi & Hm). exists w. by repeat split.
  - rewrite elem_of_app, IH, list_elem_of_singleton. split.
    + intros [(w & Hr & H)| ->].
      * exists w. split; [done|by left].
      * exists []. rewrite reads_nil. split; [done|by right].
    + intros (w & Hr & [H|[-> Hm]]).
      * left. by exists w.
      * right. apply reads_nil in Hr as [Ha Hb]. by apply state_eq.
  - rewrite list_elem_of_fmap. split.
    + intros (y & -> & (w & Hr & H)%IH). exists w. split; [done|].
      exists (marks y). split; [done|]. simpl. by rewrite (consumed_reads _ _ _ Hr).
    + intros (w & Hr & mk1 & H & Hm).
      exists (State (before st') (after st') mk1). split.
      * apply state_eq; simpl; try done.
        rewrite (consumed_reads st w); [done|]. done.
      * apply IH. by exists w.
Qed.

Lemma runs_nil_iff ic r st :
  runs ic r st = [] ↔
  ∀ w st', reads st w st' → ¬ den ic r (before st) w (after st') (marks st) (marks st').
Proof.
  split.
  - intros Hnil w st' Hr Hd.
    assert (st' ∈ runs ic r st) as Hin by (apply elem_of_runs; eauto).
    rewrite Hnil in Hin. by apply elem_of_nil in Hin.
  - intros Hno. destruct (runs ic r st) as [|m tl] eqn:Hruns; [done|].
    assert (m ∈ runs ic r st) as (w & Hr & Hd)%elem_of_runs
      by (rewrite Hruns; apply list_elem_of_here).
    by destruct (Hno w m).
Qed.

Lemma search_from_spec ic r rest : ∀ seen,
  match search_from ic r seen rest with
  | Some m =>
      ∃ a b, rest = a ++ b
        ∧ m ∈ runs ic r (State (reverse a ++ seen) b ∅)
        ∧ ∀ a' b', rest = a' ++ b' → length a' < length a →
            runs ic r (State (reverse a' ++ seen) b' ∅) = []
  | None =>
      ∀ a b, rest = a ++ b → runs ic r (State (reverse a ++ seen) b ∅) = []
  end.
Proof.
  induction rest as [|c rest IH]; intros seen; simpl.
  - destruct (runs ic r (State seen [] ∅)) as [|m tl] eqn:Hruns.
    + intros a b Hab. symmetry in Hab. by apply app_eq_nil in Hab as [-> ->].
    + exists [], []. split; [done|]. split.
      * simpl. rewrite Hruns. apply list_elem_of_here.
      * intros a' b' _ Hlt. simpl in Hlt. lia.
  - destruct (runs ic r (State seen (c :: rest) ∅)) as [|m tl] eqn:Hruns.
    + specialize (IH (c :: seen)).
      destruct (search_from ic r (c :: seen) rest) as [m|].
      * destruct IH as (a & b & -> & Hin & Hfirst).
        exists (c :: a), b. split; [done|]. split.
        -- by rewrite reverse_cons, <- (assoc_L (++)).
        -- intros [|c' a'] b' Hab Hlt; simpl in *.
           ++ by rewrite <- Hab.
           ++ injection Hab as <- Hab.
              rewrite reverse_cons, <- (assoc_L (++)). apply Hfirst; [done|lia].
      * intros [|c' a] b Hab; simpl in *.
        -- by rewrite <- Hab.
        -- injection Hab as <- Hab.
           rewrite reverse_cons, <- (assoc_L (++)). by apply IH.
    + exists [], (c :: rest). split; [done|]. split.
      * simpl. rewrite Hruns. apply list_elem_of_here.
      * intros a' b' _ Hlt. simpl in Hlt. lia.
Qed.

Lemma occurs_runs ic r pre w post mk :
  den ic r (reverse pre) w post ∅ mk ↔
  State (reverse w ++ reverse pre) post mk ∈ runs ic r (State (reverse pre) (w ++ post) ∅).
Proof.
  rewrite elem_of_runs. simpl. split.
  - intros Hd. exists w. by split.
  - intros (w' & [Ha Hb] & Hd). simpl in *.
    apply (inj (λ l, l ++ reverse pre)), (inj reverse) in Hb. by subst.
Qed.

(** [re.search] answers [None] exactly when the pattern occurs nowhere. *)
Lemma search_None ic r text :
  search ic r text = None ↔ ∀ pre w post mk, ¬ occurs ic r text pre w post mk.
Proof.
  unfold search. pose proof (search_from_spec ic r text []) as Hs. split.
  - intros Hnone pre w post mk [-> Hd]. rewrite Hnone in Hs.
    specialize (Hs pre (w ++ post) eq_refl). rewrite (right_id_L [] (++)) in Hs.
    apply occurs_runs in Hd. rewrite Hs in Hd. by apply elem_of_nil in Hd.
  - intros Hno. destruct (search_from ic r [] text) as [m|]; [|done].
    destruct Hs as (a & b & -> & (w & [Ha Hb] & Hd)%elem_of_runs & _).
    simpl in *. rewrite (right_id_L [] (++)) in Hd.
    destruct (Hno a w (after m) (marks m)). split; [by rewrite Ha|done].
Qed.

(** A match that [re.search] returns is an occurrence of the pattern,
    and no occurrence starts to the left of it. *)
Lemma search_Some ic r text m :
  search ic r text = Some m →
  ∃ pre w, occurs ic r text pre w (after m) (marks m)
    ∧ before m = reverse w ++ reverse pre
    ∧ none_before ic r text (length pre).
Proof.
  unfold search. pose proof (search_from_spec ic r text []) as Hs.
  intros Hm. rewrite Hm in Hs.
  destruct Hs as (a & b & -> & (w & [Ha Hb] & Hd)%elem_of_runs & Hfirst).
  simpl in *. rewrite (right_id_L [] (++)) in Hd, Hb.
  exists a, w. split; [split; [by rewrite Ha|done]|]. split; [done|].
  intros pre' w' post' mk' [Heq Hd'].
  destruct (decide (length a ≤ length pre')) as [|Hlt]; [done|].
  specialize (Hfirst pre' (w' ++ post') Heq ltac:(lia)).
  rewrite (right_id_L [] (++)) in Hfirst.
  apply occurs_runs in Hd'. rewrite Hfirst in Hd'. by apply elem_of_nil in Hd'.
Qed.

(** Where the pattern occurs, [re.search] returns a match, at the
    leftmost position at which it occurs. *)
Lemma search_first ic r text pre w post mk :
  occurs ic r text pre w post mk →
  none_before ic r text (length pre) →
  ∃ m w', search ic r text = Some m
    ∧ occurs ic r text pre w' (after m) (marks m)
    ∧ before m = reverse w' ++ reverse pre.
Proof.
  intros Hocc Hfirst.
  destruct (search ic r text) as [m|] eqn:Hs.
  - apply search_Some in Hs as (pre' & w' & Hocc' & Hb & Hfirst').
    assert (length pre' = length pre) as Hlen.
    { apply Hfirst in Hocc' as ?. apply Hfirst' in Hocc as ?. lia. }
    assert (pre' = pre) as ->.
    { destruct Hocc as [Ht _], Hocc' as [Ht' _]. rewrite Ht in Ht'.
      by apply app_inj_1 in Ht' as [? _]. }
    by exists m, w'.
  - rewrite search_None in Hs. by destruct (Hs pre w post mk).
Qed.
End EngineFacts.

Import Scraper Shapes.

(** * The patterns of the program match the three shapes *)

Section PatternFacts.
Context {U : UnicodeDB}.

Lemma accepts_literal c x : accepts false (Literal x) c = true ↔ c = x.
Proof. simpl. apply N.eqb_eq. Qed.

Lemma accepts_caseless c x : accepts true (Literal x) c = true ↔ caseless c x.
Proof.
  unfold caseless. simpl. destruct (iscased x); [|apply N.eqb_eq].
  rewrite orb_true_iff, N.eqb_eq, existsb_exists. split.
  - intros [?|(y & Hy & ->%N.eqb_eq)]; [by left|right].
    by apply list_elem_of_In.
  - intros [?|Hy]; [by left|right].
    exists (tolower c). split; [by apply list_elem_of_In|apply N.eqb_refl].
Qed.

Lemma den_literals ic s l w a mk mk' :
  den ic (foldr (λ c r, Cat (In (Literal c)) r) Empty s) l w a mk mk' ↔
  Forall2 (λ c x, accepts ic (Literal x) c = true) w s ∧ mk' = mk.
Proof.
  revert l w mk. induction s as [|x s IH]; intros l w mk; simpl.
  - split.
    + intros [-> ->]. split; [constructor|done].
    + intros [->%Forall2_nil_inv_r ->]. done.
  - split.
    + intros (w1 & w2 & mk1 & -> & (c & -> & Hc & ->) & [H ->]%IH).
      split; [by constructor|done].
    + intros [(c & w2 & Hc & H & ->)%Forall2_cons_inv_r ->].
      exists [c], w2, mk. split; [done|]. split; [by exists c|].
      apply IH. by split.
Qed.

Lemma den_lit s l w a mk mk' :
  den false (lit s) l w a mk mk' ↔ w = py s ∧ mk' = mk.
Proof.
  unfold lit. rewrite den_literals.
  enough (Forall2 (λ c x, accepts false (Literal x) c = true) w (py s) ↔ w = py s)
    as -> by done.
  generalize (py s) as t. intros t. split.
  - induction 1 as [|c x w' t' Hc%accepts_literal _ IH]; [done|by subst].
  - intros ->. induction t; constructor; [by apply accepts_literal|done].
Qed.

Lemma den_lit_caseless s l w a mk mk' :
  den true (lit s) l w a mk mk' ↔ Forall2 caseless w (py s) ∧ mk' = mk.
Proof.
  unfold lit. rewrite den_literals.
  enough (Forall2 (λ c x, accepts true (Literal x) c = true) w (py s)
          ↔ Forall2 caseless w (py s)) as -> by done.
  split; intros H; (eapply Forall2_impl; [exact H|]); intros c x; by rewrite accepts_caseless.
Qed.

Lemma den_chr x l w a mk mk' :
  den false (chr x) l w a mk mk' ↔ w = [x] ∧ mk' = mk.
Proof.
  simpl. split.
  - by intros (c & -> & ->%N.eqb_eq & ->).
  - intros [-> ->]. exists x. by rewrite N.eqb_refl.
Qed.

Lemma den_digits ic n l w a mk mk' :
  den ic (digits n) l w a mk mk' ↔ digits_n n w ∧ mk' = mk.
Proof.
  unfold digits_n, decimals. simpl. unfold all_accepted. simpl.
  split; [intros (? & ? & ? & ?)|intros [[? ?] ?]]; repeat split; auto; lia.
Qed.

Lemma den_plus_digit ic l w a mk mk' :
  den ic (plus CategoryDigit) l w a mk mk' ↔ w ≠ [] ∧ decimals w ∧ mk' = mk.
Proof.
  simpl. unfold all_accepted, decimals. simpl. split.
  - intros (? & ? & _ & ?). repeat split; auto. intros ->. simpl in *. lia.
  - intros (? & ? & ?). repeat split; auto. destruct w; [done|simpl; lia].
Qed.

Lemma den_plus_space ic l w a mk mk' :
  den ic (plus CategorySpace) l w a mk mk' ↔ w ≠ [] ∧ spaces w ∧ mk' = mk.
Proof.
  simpl. unfold all_accepted, spaces. simpl. split.
  - intros (? & ? & _ & ?). repeat split; auto. intros ->. simpl in *. lia.
  - intros (? & ? & ?). repeat split; auto. destruct w; [done|simpl; lia].
Qed.

Lemma den_star_space ic l w a mk mk' :
  den ic (star CategorySpace) l w a mk mk' ↔ spaces w ∧ mk' = mk.
Proof.
  simpl. unfold all_accepted, spaces. simpl. split.
  - by intros (? & _ & _ & ?).
  - intros (? & ?). repeat split; auto. lia.
Qed.

Lemma den_cat ic r1 r2 l w a mk mk' :
  den ic (Cat r1 r2) l w a mk mk' ↔
  ∃ w1 w2 mk1, w = w1 ++ w2
    ∧ den ic r1 l w1 (w2 ++ a) mk mk1
    ∧ den ic r2 (reverse w1 ++ l) w2 a mk1 mk'.
Proof. done. Qed.

Lemma den_optional ic r l w a mk mk' :
  den ic (Optional r) l w a mk mk' ↔ den ic r l w a mk mk' ∨ (w = [] ∧ mk' = mk).
Proof. done. Qed.

Lemma den_subpattern ic g r l w a mk mk' :
  den ic (Subpattern g r) l w a mk mk' ↔
  ∃ mk1, den ic r l w a mk mk1 ∧ mk' = <[g := w]> mk1.
Proof. done. Qed.

Lemma den_boundary ic l w a mk mk' :
  den ic AtBoundary l w a mk mk' ↔ w = [] ∧ boundary l a ∧ mk' = mk.
Proof. done. Qed.

Ltac den_inv :=
  repeat match goal with
  | H : den false (lit _) _ _ _ _ _ |- _ => apply den_lit in H as [? ?]
  | H : den true (lit _) _ _ _ _ _ |- _ => apply den_lit_caseless in H as [? ?]
  | H : den _ (chr _) _ _ _ _ _ |- _ => apply den_chr in H as [? ?]
  | H : den _ (digits _) _ _ _ _ _ |- _ => apply den_digits in H as [? ?]
  | H : den _ (plus CategoryDigit) _ _ _ _ _ |- _ =>
      apply den_plus_digit in H as (? & ? & ?)
  | H : den _ (plus CategorySpace) _ _ _ _ _ |- _ =>
      apply den_plus_space in H as (? & ? & ?)
  | H : den _ (star CategorySpace) _ _ _ _ _ |- _ =>
      apply den_star_space in H as (? & ?)
  | H : den _ (Cat _ _) _ _ _ _ _ |- _ =>
      apply den_cat in H as (? & ? & ? & ? & ? & ?)
  | H : den _ (Optional _) _ _ _ _ _ |- _ =>
      apply den_optional in H as [?|[? ?]]
  | H : den _ (Subpattern _ _) _ _ _ _ _ |- _ =>
      apply den_subpattern in H as (? & ? & ?)
  | H : den _ AtBoundary _ _ _ _ _ |- _ =>
      apply den_boundary in H as (? & ? & ?)
  end; subst.

(** The numeral part of the temperature pattern. *)
Lemma numeral_den l w a mk mk' :
  den false (seq [ Optional (lit "-"); plus CategoryDigit;
                   Optional (Cat (lit ".") (plus CategoryDigit)) ]) l w a mk mk'
  ↔ numeral w ∧ mk' = mk.
Proof.
  cbn [seq]. split.
  - intros H. den_inv; (split; [|done]); do 3 eexists;
      (split; [reflexivity|]); repeat split; eauto.
  - intros [(sign & ip & fp & -> & Hsign & Hne & Hd & Hfp) ->].
    apply den_cat. exists sign, (ip ++ fp), mk. split; [done|]. split.
    { apply den_optional. rewrite den_lit. destruct Hsign as [->| ->]; auto. }
    apply den_cat. exists ip, fp, mk. split; [done|]. split.
    { by apply den_plus_digit. }
    apply den_optional. destruct Hfp as [->|(fd & -> & ? & ?)]; [by right|left].
    apply den_cat. exists (py "."), fd, mk. split; [done|]. split.
    + by apply den_lit.
    + by apply den_plus_digit.
Qed.

(** The temperature pattern matches the temperature shape; group 1 is the
    numeral. *)
Lemma temp_den l w a mk :
  den false temp_pattern l w a ∅ mk ↔ ∃ num, temp_shape num w ∧ mk = {[1 := num]}.
Proof.
  unfold temp_pattern. cbn [seq]. split.
  - intros H. apply den_cat in H as (w1 & w2 & mk1 & -> & H1 & H2).
    apply den_subpattern in H1 as (mk0 & [Hnum ->]%numeral_den & ->).
    den_inv. exists w1. split; [|done]. by eexists _, _.
  - intros (num & (ws1 & ws2 & -> & Hnum & Hs1 & Hs2) & ->).
    apply den_cat. exists num, (ws1 ++ [degree] ++ ws2 ++ py "C"), {[1 := num]}.
    split; [done|]. split.
    { apply den_subpattern. exists ∅. split; [|done]. by apply numeral_den. }
    apply den_cat. eexists ws1, _, _. split; [done|]. split.
    { by apply den_star_space. }
    apply den_cat. eexists [degree], _, _. split; [done|]. split.
    { by apply den_chr. }
    apply den_cat. eexists ws2, _, _. split; [done|]. split.
    { by apply den_star_space. }
    by apply den_lit.
Qed.

Lemma isword_at_reverse l : isword_at (reverse l) = word_end l.
Proof.
  unfold word_end. rewrite <- head_reverse. by destruct (reverse l).
Qed.

Lemma boundary_delimited pre w post :
  boundary (reverse pre) (w ++ post) ∧ boundary (reverse w ++ reverse pre) post
  ↔ word_delimited pre w post.
Proof.
  unfold boundary, word_delimited.
  by rewrite <- reverse_app, !isword_at_reverse.
Qed.

(** The timestamp pattern matches the timestamp shape between two word
    boundaries; group 1 is the whole match. *)
Lemma ts_den pre w post mk :
  den false ts_pattern (reverse pre) w post ∅ mk
  ↔ ts_shape w ∧ word_delimited pre w post ∧ mk = {[1 := w]}.
Proof.
  rewrite <- boundary_delimited. unfold ts_pattern. cbn [seq]. split.
  - intros H. den_inv.
    rewrite !(left_id_L [] (++)), !(right_id_L [] (++)) in *.
    split; [|by split]. by eexists _, _, _, _, _, _, _.
  - intros ((y & mo & d & ws & h & mi & s & -> & ?) & [Hb1 Hb2] & ->).
    destruct_and!.
    apply den_cat. eexists [], _, ∅. split; [done|]. split.
    { by apply den_boundary. }
    apply den_cat. eexists _, [], _. split; [symmetry; apply app_nil_r|]. split.
    2:{ apply den_boundary. split; [done|]. split; [exact Hb2|done]. }
    apply den_subpattern. exists ∅. split; [|done].
    repeat (apply den_cat; eexists _, _, _; split; [reflexivity|split]);
      first [by apply den_digits | by apply den_lit | by apply den_plus_space].
Qed.

(** The status pattern matches the phrase between two word boundaries. *)
Lemma ok_den pre w post mk :
  den true ok_pattern (reverse pre) w post ∅ mk
  ↔ ok_shape w ∧ word_delimited pre w post ∧ mk = ∅.
Proof.
  rewrite <- boundary_delimited. unfold ok_pattern. cbn [seq]. split.
  - intros H. den_inv.
    rewrite !(left_id_L [] (++)), !(right_id_L [] (++)) in *.
    split; [by eexists _, _, _|]. split; [|done]. split; [done|].
    by rewrite !reverse_app, <- !(assoc_L (++)).
  - intros ((e & ws & o & -> & ?) & [Hb1 Hb2] & ->).
    destruct_and!.
    apply den_cat. eexists [], _, ∅. split; [done|]. split.
    { by apply den_boundary. }
    apply den_cat. eexists e, _, _. split; [done|]. split.
    { by apply den_lit_caseless. }
    apply den_cat. eexists ws, _, _. split; [done|]. split.
    { by apply den_plus_space. }
    apply den_cat. eexists o, [], _. split; [symmetry; apply app_nil_r|]. split.
    { by apply den_lit_caseless. }
    apply den_boundary. split; [done|]. split; [|done].
    simpl. by rewrite !reverse_app, <- !(assoc_L (++)) in Hb2.
Qed.
End PatternFacts.

(** * The Unicode laws at work *)

Ltac bool_cases :=
  repeat match goal with
  | |- context [(?a <=? ?b)%N] => destruct (N.leb_spec a b)
  | |- context [(?a <? ?b)%N] => destruct (N.ltb_spec a b)
  | |- context [(?a =? ?b)%N] => destruct (N.eqb_spec a b)
  end; simpl; try done; try lia.

#[global] Instance latin1_laws : UnicodeLaws latin1.
Proof.
  split; simpl.
  - intros c Hc. by apply N.ltb_lt in Hc as ->.
  - intros c Hc. by apply N.ltb_lt in Hc as ->.
  - intros c Hc. by apply N.ltb_lt in Hc as ->.
  - intros c Hc. by apply N.ltb_lt in Hc as ->.
  - intros c Hc. by apply N.ltb_lt in Hc as ->.
  - intros c Hc. by apply N.ltb_lt in Hc as ->.
  - intros c Hc. by apply N.ltb_lt in Hc as ->.
  - intros l x Hl. destruct (N.eqb_spec l 105); [|done].
    intros [<-|[]]. lia.
  - intros c d. unfold latin1_todecimal, within. bool_cases.
    intros [= <-]. lia.
  - intros c. unfold isdecimal. simpl.
    unfold latin1_todecimal, latin1_isspace, within. bool_cases.
Qed.

Section LawFacts.
Context {U : UnicodeDB} {L : UnicodeLaws U}.

Lemma isdecimal_latin1 c : (c < 256)%N → isdecimal c = within 48 57 c.
Proof.
  intros Hc. unfold isdecimal. rewrite todecimal_latin1 by done.
  unfold latin1_todecimal. by destruct (within 48 57 c).
Qed.

Lemma minus_not_decimal : isdecimal 45%N = false.
Proof. by rewrite isdecimal_latin1. Qed.
Lemma plus_not_decimal : isdecimal 43%N = false.
Proof. by rewrite isdecimal_latin1. Qed.
Lemma point_not_decimal : isdecimal 46%N = false.
Proof. by rewrite isdecimal_latin1. Qed.
Lemma degree_not_decimal : isdecimal degree = false.
Proof. by rewrite isdecimal_latin1. Qed.
Lemma point_not_space : isspace 46%N = false.
Proof. by rewrite isspace_latin1. Qed.

Lemma space_not_decimal c : isspace c = true → isdecimal c = false.
Proof.
  intros Hs. destruct (isdecimal c) eqn:Hd; [|done].
  apply decimal_not_space in Hd. congruence.
Qed.

(** A run of characters with a property, followed by a character
    without it, is determined by the text. *)
Lemma run_unique (P : char → bool) a a' x x' r r' :
  Forall (λ c, P c = true) a → Forall (λ c, P c = true) a' →
  P x = false → P x' = false →
  a ++ x :: r = a' ++ x' :: r' → a = a' ∧ x :: r = x' :: r'.
Proof.
  intros Ha. revert a'. induction Ha as [|c a Hc Ha IH]; intros a' Ha' Hx Hx' Heq.
  - destruct Ha' as [|c' a' Hc' Ha']; [done|].
    simpl in Heq. injection Heq as -> _. congruence.
  - destruct Ha' as [|c' a' Hc' Ha'].
    + simpl in Heq. injection Heq as -> _. congruence.
    + simpl in Heq. injection Heq as -> Heq.
      destruct (IH a' Ha' Hx Hx' Heq) as [-> ?]. done.
Qed.

(** What follows the numeral of a temperature starts with a character
    that is neither a digit nor the point. *)
Lemma after_numeral ws r :
  spaces ws → ∃ c t, ws ++ degree :: r = c :: t ∧ isdecimal c = false ∧ c ≠ 46%N.
Proof.
  intros [|c ws0 Hc Hws].
  - exists degree, r. split; [done|]. split; [apply degree_not_decimal|done].
  - exists c, (ws0 ++ degree :: r). split; [done|].
    split; [by apply space_not_decimal|].
    intros ->. rewrite point_not_space in Hc. done.
Qed.

Lemma numeral_unique num num' ws ws' r r' :
  numeral num → numeral num' → spaces ws → spaces ws' →
  num ++ ws ++ degree :: r = num' ++ ws' ++ degree :: r' → num = num'.
Proof.
  intros (sign & ip & fp & -> & Hsign & Hne & Hip & Hfp)
         (sign' & ip' & fp' & -> & Hsign' & Hne' & Hip' & Hfp') Hws Hws' Heq.
  change (py "-") with [45%N] in *. change (py ".") with [46%N] in *.
  destruct (after_numeral ws r Hws) as (c & t & Ht & Hc & Hc46).
  destruct (after_numeral ws' r' Hws') as (c' & t' & Ht' & Hc' & Hc46').
  rewrite Ht, Ht' in Heq. clear Ht Ht' Hws Hws'.
  rewrite <- !(assoc_L (++)) in Heq.
  assert (sign = sign' ∧ ip ++ fp ++ c :: t = ip' ++ fp' ++ c' :: t') as [<- Heq'].
  { destruct Hsign as [->| ->], Hsign' as [->| ->]; simpl in Heq; try done.
    - destruct Hip as [|d ip Hd _]; [done|]. simpl in Heq. injection Heq as -> _.
      by rewrite minus_not_decimal in Hd.
    - destruct Hip' as [|d ip' Hd _]; [done|]. simpl in Heq. injection Heq as <- _.
      by rewrite minus_not_decimal in Hd.
    - by injection Heq as Heq. }
  clear Heq.
  assert (∃ x y, fp ++ c :: t = x :: y ∧ isdecimal x = false) as (x & y & Hx & Hdx).
  { destruct Hfp as [->|(fd & -> & _)]; [by exists c, t|].
    eexists _, _. split; [done|]. apply point_not_decimal. }
  assert (∃ x y, fp' ++ c' :: t' = x :: y ∧ isdecimal x = false) as (x' & y' & Hx' & Hdx').
  { destruct Hfp' as [->|(fd & -> & _)]; [by exists c', t'|].
    eexists _, _. split; [done|]. apply point_not_decimal. }
  rewrite Hx, Hx' in Heq'.
  destruct (run_unique isdecimal _ _ _ _ _ _ Hip Hip' Hdx Hdx' Heq') as [<- Hrest].
  rewrite <- Hx, <- Hx' in Hrest. do 2 f_equal.
  destruct Hfp as [->|(fd & -> & _ & Hfd)], Hfp' as [->|(fd' & -> & _ & Hfd')];
    simpl in Hrest; try done.
  - injection Hrest as -> _. done.
  - injection Hrest as <- _. done.
  - injection Hrest as Hrest. f_equal.
    by destruct (run_unique isdecimal _ _ _ _ _ _ Hfd Hfd' Hc Hc' Hrest).
Qed.

Lemma temp_shape_unique num num' w w' post post' :
  temp_shape num w → temp_shape num' w' → w ++ post = w' ++ post' → num = num'.
Proof.
  intros (ws1 & ws2 & -> & Hnum & Hs1 & _) (ws1' & ws2' & -> & Hnum' & Hs1' & _) Heq.
  rewrite <- !(assoc_L (++)) in Heq.
  exact (numeral_unique num num' ws1 ws1' _ _ Hnum Hnum' Hs1 Hs1' Heq).
Qed.

Lemma digits_n_head n w :
  digits_n (S n) w → ∃ c t, w = c :: t ∧ isdecimal c = true.
Proof.
  intros [Hlen Hd]. destruct Hd as [|c t Hc _]; [done|]. by exists c, t.
Qed.

Lemma ts_shape_unique w w' post post' :
  ts_shape w → ts_shape w' → w ++ post = w' ++ post' → w = w'.
Proof.
  intros (y & mo & d & ws & h & mi & s & -> & [Ly _] & [Lmo _] & [Ld _]
            & _ & Hws & Hh & [Lmi _] & [Ls _])
         (y' & mo' & d' & ws' & h' & mi' & s' & -> & [Ly' _] & [Lmo' _] & [Ld' _]
            & _ & Hws' & Hh' & [Lmi' _] & [Ls' _]) Heq.
  rewrite <- !(assoc_L (++)) in Heq.
  apply app_inj_1 in Heq as [<- Heq]; [|congruence].
  apply app_inj_1 in Heq as [_ Heq]; [|done].
  apply app_inj_1 in Heq as [<- Heq]; [|congruence].
  apply app_inj_1 in Heq as [_ Heq]; [|done].
  apply app_inj_1 in Heq as [<- Heq]; [|congruence].
  destruct Hh as [Lh Hh], Hh' as [Lh' Hh'].
  assert (ws = ws' ∧ h ++ py ":" ++ mi ++ py ":" ++ s ++ post
                     = h' ++ py ":" ++ mi' ++ py ":" ++ s' ++ post') as [<- Heq'].
  { destruct Hh as [|c t Hc _]; [done|]. destruct Hh' as [|c' t' Hc' _]; [done|].
    apply decimal_not_space in Hc, Hc'.
    exact (run_unique isspace _ _ _ _ _ _ Hws Hws' Hc Hc' Heq). }
  apply app_inj_1 in Heq' as [<- Heq']; [|congruence].
  apply app_inj_1 in Heq' as [_ Heq']; [|done].
  apply app_inj_1 in Heq' as [<- Heq']; [|congruence].
  apply app_inj_1 in Heq' as [_ Heq']; [|done].
  apply app_inj_1 in Heq' as [<- Heq']; [|congruence].
  done.
Qed.

(** *** [float] on a numeral *)

Lemma span_decimal_run ds x t :
  decimals ds → isdecimal x = false →
  span_decimal (ds ++ x :: t) = (ds, x :: t).
Proof.
  intros Hds Hx. induction Hds as [|c ds Hc _ IH]; simpl.
  - by rewrite Hx.
  - by rewrite Hc, IH.
Qed.

Lemma span_decimal_all ds : decimals ds → span_decimal ds = (ds, []).
Proof.
  intros Hds. induction Hds as [|c ds Hc _ IH]; simpl; [done|].
  by rewrite Hc, IH.
Qed.

Lemma digits_value_decimals ds : decimals ds → ∀ acc, is_Some (digits_value acc ds).
Proof.
  intros Hds. induction Hds as [|c ds Hc _ IH]; intros acc; simpl; [by eexists|].
  unfold isdecimal in Hc. destruct (todecimal c); [apply IH|done].
Qed.

Lemma digits_value_bound ds : ∀ acc n,
  digits_value acc ds = Some n →
  (Z.of_N n < (Z.of_N acc + 1) * 10 ^ Z.of_nat (length ds))%Z.
Proof.
  induction ds as [|c ds IH]; intros acc n; simpl length.
  - intros [= <-]. simpl. lia.
  - simpl. destruct (todecimal c) as [d|] eqn:Hd; [|done].
    intros Hn%IH. apply todecimal_digit in Hd.
    rewrite Nat2Z.inj_succ, Z.pow_succ_r by lia.
    assert (0 < 10 ^ Z.of_nat (length ds))%Z by (apply Z.pow_pos_nonneg; lia).
    nia.
Qed.

(** [float] never raises on a numeral: it returns the binary64 of a
    decimal fraction, with the sign that the numeral carries. *)
Lemma float_of_numeral num :
  numeral num →
  ∃ neg n k, float_of_str num = Ok (float_of_decimal neg n k)
    ∧ (neg = true ↔ ∃ t, num = 45%N :: t)
    ∧ (Z.of_N n < 10 ^ (Z.of_nat (length num) + Z.of_nat k))%Z.
Proof.
  intros (sign & ip & fp & -> & Hsign & Hne & Hip & Hfp).
  change (py "-") with [45%N] in *. change (py ".") with [46%N] in *.
  assert (∃ c t, ip = c :: t ∧ isdecimal c = true) as (c & t & Hc & Hdc).
  { destruct Hip as [|c t Hc _]; [done|]. by exists c, t. }
  assert (c ≠ 45%N ∧ c ≠ 43%N) as [Hc45 Hc43].
  { split; intros ->; [by rewrite minus_not_decimal in Hdc
                      |by rewrite plus_not_decimal in Hdc]. }
  set (fd := match fp with _ :: f => f | [] => [] end).
  assert (decimals fd) as Hfd.
  { destruct Hfp as [->|(f & -> & _ & Hf)]; [constructor|done]. }
  assert (∀ neg, float_of_body neg (ip ++ fp)
                 = match digits_value 0 (ip ++ fd) with
                   | Some n => Ok (float_of_decimal neg n (length fd))
                   | None => Raise ValueError
                   end) as Hbody.
  { intros neg. unfold float_of_body.
    assert (span_decimal (ip ++ fp) = (ip, fp)) as ->.
    { destruct Hfp as [->|(f & -> & _ & Hf)].
      - rewrite (right_id_L [] (++)). by apply span_decimal_all.
      - apply span_decimal_run; [done|apply point_not_decimal]. }
    replace (match fp with
             | c :: f => if (c =? 46)%N then Some f else None
             | [] => Some []
             end) with (Some fd)
      by (destruct Hfp as [->|(f & -> & _)]; done).
    rewrite Hc. by destruct (digits_value 0 ((c :: t) ++ fd)). }
  destruct (digits_value_decimals (ip ++ fd)) with (acc := 0%N) as [n Hn].
  { by apply Forall_app. }
  assert (Z.of_N n < 10 ^ (Z.of_nat (length (sign ++ ip ++ fp))
                           + Z.of_nat (length fd)))%Z as Hbound.
  { apply digits_value_bound in Hn. simpl in Hn. rewrite Z.mul_1_l in Hn.
    eapply Z.lt_le_trans; [exact Hn|]. apply Z.pow_le_mono_r; [lia|].
    rewrite !length_app. subst fd.
    destruct Hfp as [->|(f & -> & _)]; simpl; lia. }
  apply N.eqb_neq in Hc45, Hc43.
  destruct Hsign as [->| ->].
  - exists false, n, (length fd). split.
    + transitivity (float_of_body false (ip ++ fp)); [|by rewrite Hbody, Hn].
      rewrite Hc. unfold float_of_str. cbn [app]. by rewrite Hc45, Hc43.
    + split; [|done]. split; [done|]. intros (t' & Heq). rewrite Hc in Heq.
      injection Heq as -> _. by rewrite N.eqb_refl in Hc45.
  - exists true, n, (length fd). split.
    + change (float_of_str ([45%N] ++ ip ++ fp)) with (float_of_body true (ip ++ fp)).
      by rewrite Hbody, Hn.
    + split; [|done]. split; [intros _; by eexists|done].
Qed.
End LawFacts.

(** * The three scans of [extract_latest] *)

Section Scans.
Context {U : UnicodeDB} {L : UnicodeLaws U}.

Lemma extract_latest_scans text :
  extract_latest text =
  rbind (scan_temperature text)
    (λ t, Ok (t, scan_timestamp text, scan_status text)).
Proof.
  unfold extract_latest, scan_temperature, scan_timestamp, scan_status.
  by destruct (search true ok_pattern text).
Qed.

Lemma temp_at_occurs text pre num :
  temp_at text pre num ↔ ∃ w post, occurs false temp_pattern text pre w post {[1 := num]}.
Proof.
  unfold temp_at, at_position, occurs. split.
  - intros (w & (post & ->) & Hshape). exists w, post. split; [done|].
    apply temp_den. by exists num.
  - intros (w & post & -> & (num' & Hshape & Hmk)%temp_den).
    apply (f_equal (lookup 1)) in Hmk. rewrite !lookup_singleton_eq in Hmk.
    injection Hmk as ->. exists w. split; [by exists post|done].
Qed.

Lemma ts_at_occurs text pre w :
  ts_at text pre w ↔ ∃ post, occurs false ts_pattern text pre w post {[1 := w]}.
Proof.
  unfold ts_at, occurs. split.
  - intros (post & -> & Hshape & Hdel). exists post. split; [done|].
    by apply ts_den.
  - intros (post & -> & (Hshape & Hdel & _)%ts_den). by exists post.
Qed.

Lemma ok_at_occurs text pre w :
  ok_at text pre w ↔ ∃ post, occurs true ok_pattern text pre w post ∅.
Proof.
  unfold ok_at, occurs. split.
  - intros (post & -> & Hshape & Hdel). exists post. split; [done|].
    by apply ok_den.
  - intros (post & -> & (Hshape & Hdel & _)%ok_den). by exists post.
Qed.

(** The temperature scan. *)
Lemma search_temp_None text :
  search false temp_pattern text = None ↔ ∀ pre num, ¬ temp_at text pre num.
Proof.
  rewrite search_None. split.
  - intros Hno pre num (w & post & Hocc)%temp_at_occurs. by destruct (Hno _ _ _ _ Hocc).
  - intros Hno pre w post mk Hocc. destruct Hocc as [Ht Hd].
    apply temp_den in Hd as Hd'. destruct Hd' as (num & Hshape & ->).
    apply (Hno pre num). apply temp_at_occurs. by exists w, post.
Qed.

Lemma search_temp_first text pre num :
  temp_at text pre num → leftmost (temp_at text) pre →
  ∃ m, search false temp_pattern text = Some m ∧ group m 1 = Some num.
Proof.
  intros (w & post & Hocc)%temp_at_occurs Hleft.
  destruct (search_first false temp_pattern text pre w post _ Hocc)
    as (m & w' & Hs & [Ht' Hd'] & _).
  { intros pre' w' post' mk' Hocc'. destruct Hocc' as [Ht' Hd'].
    apply temp_den in Hd' as Hd''. destruct Hd'' as (num' & Hshape' & ->).
    apply (Hleft pre' num'). apply temp_at_occurs. by exists w', post'. }
  exists m. split; [done|].
  apply temp_den in Hd' as (num' & Hshape' & Hmk).
  destruct Hocc as [Ht Hd]. apply temp_den in Hd as (num'' & Hshape & Hmk'').
  apply (f_equal (lookup 1)) in Hmk''. rewrite !lookup_singleton_eq in Hmk''.
  injection Hmk'' as <-.
  rewrite Ht in Ht'. apply app_inv_head in Ht'.
  unfold group. rewrite Hmk, lookup_singleton_eq. f_equal. symmetry.
  by eapply temp_shape_unique.
Qed.

Lemma search_temp_Some text m :
  search false temp_pattern text = Some m →
  ∃ pre num, temp_at text pre num ∧ leftmost (temp_at text) pre
    ∧ group m 1 = Some num.
Proof.
  intros (pre & w & Hocc & _ & Hfirst)%search_Some.
  destruct Hocc as [Ht Hd]. apply temp_den in Hd as Hd'.
  destruct Hd' as (num & Hshape & Hmk). exists pre, num. split; [|split].
  - exists w. split; [by exists (after m)|done].
  - intros pre' num' (w' & post' & Hocc')%temp_at_occurs. by eapply Hfirst.
  - unfold group. by rewrite Hmk, lookup_singleton_eq.
Qed.

(** The timestamp scan. *)
Lemma search_ts_None text :
  search false ts_pattern text = None ↔ ∀ pre w, ¬ ts_at text pre w.
Proof.
  rewrite search_None. split.
  - intros Hno pre w (post & Hocc)%ts_at_occurs. by destruct (Hno _ _ _ _ Hocc).
  - intros Hno pre w post mk Hocc. destruct Hocc as [Ht Hd].
    apply ts_den in Hd as Hd'. destruct Hd' as (Hshape & Hdel & ->).
    apply (Hno pre w). apply ts_at_occurs. by exists post.
Qed.

Lemma search_ts_first text pre w :
  ts_at text pre w → leftmost (ts_at text) pre →
  ∃ m, search false ts_pattern text = Some m ∧ group m 1 = Some w.
Proof.
  intros (post & Hocc)%ts_at_occurs Hleft.
  destruct (search_first false ts_pattern text pre w post _ Hocc)
    as (m & w' & Hs & [Ht' Hd'] & _).
  { intros pre' w' post' mk' Hocc'. destruct Hocc' as [Ht' Hd'].
    apply ts_den in Hd' as Hd''. destruct Hd'' as (Hshape' & Hdel' & ->).
    apply (Hleft pre' w'). apply ts_at_occurs. by exists post'. }
  exists m. split; [done|].
  apply ts_den in Hd' as (Hshape' & _ & Hmk).
  destruct Hocc as [Ht Hd]. apply ts_den in Hd as (Hshape & _ & _).
  rewrite Ht in Ht'. apply app_inv_head in Ht'.
  unfold group. rewrite Hmk, lookup_singleton_eq. f_equal. symmetry.
  by eapply ts_shape_unique.
Qed.

Lemma search_ts_Some text m :
  search false ts_pattern text = Some m →
  ∃ pre w, ts_at text pre w ∧ leftmost (ts_at text) pre ∧ group m 1 = Some w.
Proof.
  intros (pre & w & Hocc & _ & Hfirst)%search_Some.
  destruct Hocc as [Ht Hd]. apply ts_den in Hd as Hd'.
  destruct Hd' as (Hshape & Hdel & Hmk). exists pre, w. split; [|split].
  - by exists (after m).
  - intros pre' w' (post' & Hocc')%ts_at_occurs. by eapply Hfirst.
  - unfold group. by rewrite Hmk, lookup_singleton_eq.
Qed.

(** The status scan. *)
Lemma search_ok_None text :
  search true ok_pattern text = None ↔ ∀ pre w, ¬ ok_at text pre w.
Proof.
  rewrite search_None. split.
  - intros Hno pre w (post & Hocc)%ok_at_occurs. by destruct (Hno _ _ _ _ Hocc).
  - intros Hno pre w post mk Hocc. destruct Hocc as [Ht Hd].
    apply ok_den in Hd as Hd'. destruct Hd' as (Hshape & Hdel & ->).
    apply (Hno pre w). apply ok_at_occurs. by exists post.
Qed.

Lemma scan_status_Some text :
  scan_status text = Some (py "Everything ok") ↔ ∃ pre w, ok_at text pre w.
Proof.
  unfold scan_status. destruct (search true ok_pattern text) as [m|] eqn:Hs.
  - split; [intros _|done].
    apply search_Some in Hs as (pre & w & [Ht Hd] & _).
    exists pre, w. exists (after m). split; [done|].
    by apply ok_den in Hd as (? & ? & _).
  - split; [done|]. intros (pre & w & Hat).
    rewrite search_ok_None in Hs. by destruct (Hs pre w).
Qed.

Lemma scan_status_None text :
  scan_status text = None ↔ ∀ pre w, ¬ ok_at text pre w.
Proof.
  rewrite <- search_ok_None. unfold scan_status.
  by destruct (search true ok_pattern text).
Qed.

Lemma scan_timestamp_None text :
  scan_timestamp text = None ↔ ∀ pre w, ¬ ts_at text pre w.
Proof.
  rewrite <- search_ts_None. unfold scan_timestamp.
  destruct (search false ts_pattern text) as [m|] eqn:Hs; [|done].
  apply search_ts_Some in Hs as (pre & w & _ & _ & ->). done.
Qed.

Lemma scan_timestamp_first text pre w :
  ts_at text pre w → leftmost (ts_at text) pre → scan_timestamp text = Some w.
Proof.
  intros Hat Hleft. unfold scan_timestamp.
  by destruct (search_ts_first text pre w Hat Hleft) as (m & -> & ->).
Qed.

Lemma scan_temperature_None text :
  scan_temperature text = Ok None ↔ ∀ pre num, ¬ temp_at text pre num.
Proof.
  rewrite <- search_temp_None. unfold scan_temperature.
  destruct (search false temp_pattern text) as [m|] eqn:Hs; [|done].
  apply search_temp_Some in Hs as (pre & num & (w & _ & ws1 & ws2 & _ & Hnum & _) & _ & ->).
  destruct (float_of_numeral num Hnum) as (neg & n & k & Hf & _).
  simpl. rewrite Hf. done.
Qed.

Lemma scan_temperature_first text pre num :
  temp_at text pre num → leftmost (temp_at text) pre →
  scan_temperature text = rbind (float_of_str num) (λ f, Ok (Some f)).
Proof.
  intros Hat Hleft. unfold scan_temperature.
  by destruct (search_temp_first text pre num Hat Hleft) as (m & -> & ->).
Qed.

(** The temperature scan never raises: it answers [None], or the
    binary64 of the numeral of the leftmost occurrence. *)
Lemma scan_temperature_total text :
  scan_temperature text = Ok None
  ∨ ∃ pre num neg n k,
      temp_at text pre num ∧ leftmost (temp_at text) pre
      ∧ float_of_str num = Ok (float_of_decimal neg n k)
      ∧ (neg = true ↔ ∃ t, num = 45%N :: t)
      ∧ (Z.of_N n < 10 ^ (Z.of_nat (length num) + Z.of_nat k))%Z
      ∧ scan_temperature text = Ok (Some (float_of_decimal neg n k)).
Proof.
  unfold scan_temperature.
  destruct (search false temp_pattern text) as [m|] eqn:Hs; [right|by left].
  apply search_temp_Some in Hs as (pre & num & Hat & Hleft & ->).
  destruct Hat as (w & Hpos & Hshape).
  destruct Hshape as (ws1 & ws2 & Hw & Hnum & Hs1 & Hs2).
  destruct (float_of_numeral num Hnum) as (neg & n & k & Hf & Hneg & Hbound).
  exists pre, num, neg, n, k. split; [|split; [done|]].
  { exists w. split; [done|]. by exists ws1, ws2. }
  split; [done|]. split; [done|]. split; [done|]. simpl. by rewrite Hf.
Qed.
End Scans.

(** * Every lawful database agrees on Latin-1 texts *)

Import Latin1.

Section Canon.
Context {U : UnicodeDB} {L : UnicodeLaws U}.

Lemma latin1_tolower_bound c : (c < 256)%N → (latin1_tolower c < 256)%N.
Proof. intros Hc. unfold latin1_tolower, within. bool_cases. Qed.

Lemma latin1_tolower_ascii c : (c < 128)%N → (latin1_tolower c < 128)%N.
Proof. intros Hc. unfold latin1_tolower, within. bool_cases. Qed.

Lemma iscased_ascii l :
  (l < 128)%N →
  iscased l = negb (l =? latin1_tolower l)%N || negb (l =? ascii_toupper l)%N.
Proof.
  intros Hl. unfold iscased.
  rewrite tolower_latin1 by lia. by rewrite toupper_ascii.
Qed.

Lemma accepts_latin1 ic cs c :
  ascii_charset ic cs = true → (c < 256)%N →
  accepts ic cs c = latin1_accepts ic cs c.
Proof.
  intros Hcs Hc. destruct cs as [l| |]; simpl.
  - destruct ic; [|done]. simpl in Hcs. apply N.ltb_lt in Hcs.
    rewrite iscased_ascii by done. simpl.
    destruct (negb _ || negb _); [|done].
    rewrite (tolower_latin1 c), (tolower_latin1 l) by lia.
    destruct (latin1_tolower c =? latin1_tolower l)%N eqn:Heq; [done|]. simpl.
    apply not_true_is_false. intros (x & Hx & Hcx%N.eqb_eq)%existsb_exists.
    apply extra_cases_ascii in Hx; [|by apply latin1_tolower_ascii].
    pose proof (latin1_tolower_bound c Hc). lia.
  - by apply isdecimal_latin1.
  - by apply isspace_latin1.
Qed.

Lemma isword_latin1 c : (c < 256)%N → isword c = latin1_isword c.
Proof.
  intros Hc. unfold isword, isalnum, latin1_isword.
  rewrite isalpha_latin1, isdecimal_latin1, isdigit_latin1, isnumeric_latin1 by done.
  done.
Qed.
End Canon.

Section Agree.
Context (U1 U2 : UnicodeDB) {L1 : UnicodeLaws U1} {L2 : UnicodeLaws U2}.

Lemma accepts_agree ic cs c :
  ascii_charset ic cs = true → (c < 256)%N →
  accepts (U:=U1) ic cs c = accepts (U:=U2) ic cs c.
Proof. intros. by rewrite !accepts_latin1. Qed.

Lemma isword_at_agree s :
  latin1_text s → isword_at (U:=U1) s = isword_at (U:=U2) s.
Proof. intros [|c t Hc _]; simpl; [done|]. by rewrite !isword_latin1. Qed.

Lemma repeat_one_agree ic cs rest :
  ascii_charset ic cs = true → latin1_text rest →
  ∀ lo hi st,
    repeat_one (U:=U1) ic cs lo hi st rest = repeat_one (U:=U2) ic cs lo hi st rest.
Proof.
  intros Hcs Hrest. induction Hrest as [|c rest Hc _ IH]; intros lo hi st; simpl.
  - done.
  - by rewrite (accepts_agree ic cs c), IH.
Qed.

Lemma reads_latin1 st w st' :
  reads st w st' → latin1_text (before st) → latin1_text (after st) →
  latin1_text (before st') ∧ latin1_text (after st').
Proof.
  unfold latin1_text. intros [Ha Hb] Hbef Haft.
  rewrite Ha in Haft. apply Forall_app in Haft as [Hw Haft].
  rewrite Hb. split; [|done]. apply Forall_app. split; [|done].
  by apply Forall_reverse.
Qed.

Lemma bind_agree {A B} (f g : A → list B) (l : list A) :
  (∀ x, x ∈ l → f x = g x) → l ≫= f = l ≫= g.
Proof.
  induction l as [|x l IH]; intros Hfg; [done|].
  rewrite !bind_cons, Hfg, IH; [done| |apply list_elem_of_here].
  intros y Hy. apply Hfg. by apply list_elem_of_further.
Qed.

Lemma runs_agree ic r :
  ascii_pattern ic r = true →
  ∀ st, latin1_text (before st) → latin1_text (after st) →
    runs (U:=U1) ic r st = runs (U:=U2) ic r st.
Proof.
  induction r as [|cs| |r1 IH1 r2 IH2|lo hi cs|r IH|g r IH];
    intros Hr st Hbef Haft; simpl in *.
  - done.
  - destruct (after st) as [|c rest]; [done|].
    apply Forall_cons in Haft as [Hc _]. by rewrite (accepts_agree ic cs c).
  - unfold at_boundary. by rewrite !(isword_at_agree _).
  - apply andb_true_iff in Hr as [Hr1 Hr2].
    rewrite (IH1 Hr1 st Hbef Haft). apply bind_agree.
    intros st' (w & Hreads & _)%elem_of_runs.
    destruct (reads_latin1 _ _ _ Hreads Hbef Haft). by apply IH2.
  - by apply repeat_one_agree.
  - by rewrite IH.
  - by rewrite IH.
Qed.

Lemma search_from_agree ic r rest :
  ascii_pattern ic r = true → latin1_text rest →
  ∀ seen, latin1_text seen →
    search_from (U:=U1) ic r seen rest = search_from (U:=U2) ic r seen rest.
Proof.
  intros Hr Hrest. induction Hrest as [|c rest Hc Hrest IH]; intros seen Hseen; simpl.
  - rewrite (runs_agree ic r Hr); [done|done|constructor].
  - rewrite (runs_agree ic r Hr); [|done|by constructor].
    destruct (runs ic r _); [|done]. apply IH. by constructor.
Qed.

Lemma search_agree ic r text :
  ascii_pattern ic r = true → latin1_text text →
  search (U:=U1) ic r text = search (U:=U2) ic r text.
Proof. intros. apply search_from_agree; [done..|constructor]. Qed.

Lemma span_decimal_agree s :
  latin1_text s → span_decimal (U:=U1) s = span_decimal (U:=U2) s.
Proof.
  induction 1 as [|c t Hc _ IH]; simpl; [done|].
  by rewrite !isdecimal_latin1, IH.
Qed.

Lemma digits_value_agree s :
  latin1_text s → ∀ acc, digits_value (U:=U1) acc s = digits_value (U:=U2) acc s.
Proof.
  induction 1 as [|c t Hc _ IH]; intros acc; simpl; [done|].
  rewrite !todecimal_latin1 by done. destruct (latin1_todecimal c); [apply IH|done].
Qed.

Lemma span_decimal_split s ip rest :
  span_decimal (U:=U2) s = (ip, rest) → s = ip ++ rest.
Proof.
  revert ip rest. induction s as [|c s IH]; intros ip rest; simpl.
  - by intros [= <- <-].
  - destruct (isdecimal c); [|by intros [= <- <-]].
    destruct (span_decimal s) as [ds r]. intros [= <- <-].
    by rewrite (IH ds r).
Qed.

Lemma float_of_body_agree neg s :
  latin1_text s → float_of_body (U:=U1) neg s = float_of_body (U:=U2) neg s.
Proof.
  intros Hs. unfold float_of_body. rewrite (span_decimal_agree s Hs).
  destruct (span_decimal s) as [ip rest] eqn:Hspan.
  apply span_decimal_split in Hspan as ->.
  apply Forall_app in Hs as [Hip Hrest].
  destruct rest as [|c f]; [|destruct (c =? 46)%N; [|done]].
  - rewrite digits_value_agree; [done|]. by apply Forall_app.
  - apply Forall_cons in Hrest as [_ Hf].
    rewrite digits_value_agree; [done|]. by apply Forall_app.
Qed.

Lemma float_of_str_agree s :
  latin1_text s → float_of_str (U:=U1) s = float_of_str (U:=U2) s.
Proof.
  intros Hs. unfold float_of_str. destruct Hs as [|c t Hc Ht]; simpl.
  - apply float_of_body_agree. constructor.
  - rewrite !(float_of_body_agree _ t), !(float_of_body_agree _ (c :: t)); try done.
    by constructor.
Qed.

Lemma scan_timestamp_agree text :
  latin1_text text → scan_timestamp (U:=U1) text = scan_timestamp (U:=U2) text.
Proof. intros. unfold scan_timestamp. rewrite search_agree; [done|reflexivity|done]. Qed.

Lemma scan_status_agree text :
  latin1_text text → scan_status (U:=U1) text = scan_status (U:=U2) text.
Proof. intros. unfold scan_status. rewrite search_agree; [done|reflexivity|done]. Qed.

Lemma scan_temperature_agree text :
  latin1_text text → scan_temperature (U:=U1) text = scan_temperature (U:=U2) text.
Proof.
  intros Htext. unfold scan_temperature. rewrite search_agree; [|reflexivity|done].
  destruct (search false temp_pattern text) as [m|] eqn:Hs; [|done].
  apply (search_temp_Some (U:=U2)) in Hs
    as (pre & num & (w & (post & ->) & ws1 & ws2 & -> & _) & _ & ->).
  simpl. rewrite float_of_str_agree; [done|].
  apply Forall_app in Htext as [_ Htext].
  rewrite <- !(assoc_L (++)) in Htext. by apply Forall_app in Htext as [? _].
Qed.

Lemma extract_latest_agree text :
  latin1_text text → extract_latest (U:=U1) text = extract_latest (U:=U2) text.
Proof.
  intros. rewrite !extract_latest_scans.
  by rewrite scan_temperature_agree, scan_timestamp_agree, scan_status_agree.
Qed.
End Agree.

(** * binary64 results *)

Section FloatFacts.

Lemma shr_1_nonneg mrs : (0 ≤ shr_m mrs)%Z → (0 ≤ shr_m (shr_1 mrs))%Z.
Proof.
  destruct mrs as [m r s]. simpl. intros Hm.
  destruct m as [|[p|p|]|p]; simpl; lia.
Qed.

Lemma iter_shr_1_nonneg p : ∀ mrs,
  (0 ≤ shr_m mrs)%Z → (0 ≤ shr_m (SpecFloat.iter_pos shr_1 p mrs))%Z.
Proof.
  induction p as [p IH|p IH|]; intros mrs Hm; simpl.
  - apply IH, IH. by apply shr_1_nonneg.
  - by apply IH, IH.
  - by apply shr_1_nonneg.
Qed.

Lemma shr_fexp_nonneg m e l :
  (0 ≤ m)%Z → (0 ≤ shr_m (shr_fexp prec emax m e l).1)%Z.
Proof.
  intros Hm. unfold shr_fexp, shr.
  assert (0 ≤ shr_m (shr_record_of_loc m l))%Z as Hrec.
  { unfold shr_record_of_loc. by destruct l as [|[]]. }
  destruct (fexp prec emax (Zdigits2 m + e) - e)%Z; simpl; try done.
  by apply iter_shr_1_nonneg.
Qed.

Lemma round_nearest_even_nonneg m l : (0 ≤ m)%Z → (0 ≤ round_nearest_even m l)%Z.
Proof.
  intros Hm. unfold round_nearest_even.
  destruct l as [|[]]; try done; [destruct (Z.even m)|]; lia.
Qed.

(** Rounding a non-negative mantissa gives a zero, a finite number or
    an infinity, with the sign asked for. *)
Lemma binary_round_aux_sign s m e l :
  (0 ≤ m)%Z →
  binary_round_aux prec emax s m e l = S754_zero s
  ∨ binary_round_aux prec emax s m e l = S754_infinity s
  ∨ ∃ m' e', binary_round_aux prec emax s m e l = S754_finite s m' e'.
Proof.
  intros Hm. unfold binary_round_aux.
  pose proof (shr_fexp_nonneg m e l Hm) as H1.
  destruct (shr_fexp prec emax m e l) as [mrs' e']. simpl in H1.
  pose proof (shr_fexp_nonneg _ e' loc_Exact
                (round_nearest_even_nonneg _ (loc_of_shr_record mrs') H1)) as H2.
  destruct (shr_fexp prec emax _ e' loc_Exact) as [mrs'' e'']. simpl in H2.
  destruct (shr_m mrs'') as [|p|p]; [by left| |lia].
  right. destruct (e'' <=? emax - prec)%Z; [right; by eexists _, _|by left].
Qed.

Lemma float_of_decimal_sign neg n k :
  float_of_decimal neg n k = S754_zero neg
  ∨ float_of_decimal neg n k = S754_infinity neg
  ∨ ∃ m e, float_of_decimal neg n k = S754_finite neg m e.
Proof.
  unfold float_of_decimal. destruct n as [|p]; [by left|].
  unfold SFdiv. destruct (SFdiv_core_binary _ _ _ _ _ _) as [[mz ez] lz] eqn:Hcore.
  replace (xorb neg false) with neg by (by destruct neg).
  apply binary_round_aux_sign.
  unfold SFdiv_core_binary in Hcore.
  set (m' := match _ with Z0 => _ | Zpos _ => _ | Zneg _ => _ end) in Hcore.
  assert (0 ≤ m')%Z as Hm'.
  { subst m'. destruct (_ - _ - _)%Z; try done. by apply Z.shiftl_nonneg. }
  pose proof (Z_div_mod m' (Z.pos (pow10 k)) ltac:(done)) as Hdiv.
  destruct (Z.div_eucl m' (Z.pos (pow10 k))) as [q r].
  injection Hcore as <- _ _. nia.
Qed.

(** The result of [float] on a numeral is never NaN. *)
Lemma float_of_decimal_not_nan neg n k : float_of_decimal neg n k ≠ S754_nan.
Proof.
  destruct (float_of_decimal_sign neg n k) as [->|[->|(m & e & ->)]]; done.
Qed.
End FloatFacts.

(** * Decimals within the range of binary64 *)

Section FloatBound.
Local Open Scope Z_scope.

Lemma digits2_pos_lower p : 2 ^ (Z.pos (digits2_pos p) - 1) ≤ Z.pos p.
Proof.
  induction p as [p IH|p IH|]; simpl; [| |done].
  - rewrite Pos2Z.inj_succ. replace (Z.succ (Z.pos (digits2_pos p)) - 1)
      with (Z.succ (Z.pos (digits2_pos p) - 1)) by lia.
    rewrite Z.pow_succ_r by lia. lia.
  - rewrite Pos2Z.inj_succ. replace (Z.succ (Z.pos (digits2_pos p)) - 1)
      with (Z.succ (Z.pos (digits2_pos p) - 1)) by lia.
    rewrite Z.pow_succ_r by lia. lia.
Qed.

(** A non-negative [m] below [2^b] has at most [b] binary digits. *)
Lemma Zdigits2_upper m b : 0 ≤ m → 0 ≤ b → m < 2 ^ b → Zdigits2 m ≤ b.
Proof.
  intros Hm Hb Hlt. destruct m as [|p|p]; simpl; [done| |lia].
  pose proof (digits2_pos_lower p) as Hlow.
  assert (2 ^ (Z.pos (digits2_pos p) - 1) < 2 ^ b) as Hpow by lia.
  apply Z.pow_lt_mono_r_iff in Hpow; lia.
Qed.

Lemma shr_1_half mrs : 0 ≤ shr_m mrs → 2 * shr_m (shr_1 mrs) ≤ shr_m mrs.
Proof.
  destruct mrs as [m r s]. simpl. intros Hm.
  destruct m as [|[p|p|]|p]; simpl; lia.
Qed.

Lemma iter_shr_1_half p : ∀ mrs,
  0 ≤ shr_m mrs →
  2 ^ Z.pos p * shr_m (SpecFloat.iter_pos shr_1 p mrs) ≤ shr_m mrs.
Proof.
  induction p as [p IH|p IH|]; intros mrs Hm; simpl SpecFloat.iter_pos.
  - pose proof (shr_1_nonneg mrs Hm) as H1.
    pose proof (shr_1_half mrs Hm) as H1'.
    pose proof (iter_shr_1_nonneg p _ H1) as H2.
    pose proof (IH _ H1) as H2'. pose proof (IH _ H2) as H3'.
    pose proof (iter_shr_1_nonneg p _ H2) as H3.
    rewrite Pos2Z.inj_xI.
    replace (2 * Z.pos p + 1) with (Z.pos p + Z.pos p + 1) by lia.
    rewrite !Z.pow_add_r, Z.pow_1_r by lia.
    assert (0 < 2 ^ Z.pos p) by (apply Z.pow_pos_nonneg; lia). nia.
  - pose proof (iter_shr_1_nonneg p _ Hm) as H2.
    pose proof (IH _ Hm) as H2'. pose proof (IH _ H2) as H3'.
    pose proof (iter_shr_1_nonneg p _ H2) as H3.
    replace (Z.pos p~0) with (Z.pos p + Z.pos p) by lia.
    rewrite !Z.pow_add_r by lia.
    assert (0 < 2 ^ Z.pos p) by (apply Z.pow_pos_nonneg; lia). nia.
  - rewrite Z.pow_1_r. by apply shr_1_half.
Qed.

(** The scaled value [m * 2^(e + 1074)] does not grow in [shr_fexp], and
    the exponent stays within what the bound [2^2098] on it allows. *)
Lemma shr_fexp_bound m e l mrs e1 :
  0 ≤ m → -1074 ≤ e → e ≤ 971 →
  m * 2 ^ (e + 1074) < 2 ^ 2098 →
  shr_fexp prec emax m e l = (mrs, e1) →
  0 ≤ shr_m mrs ∧ -1074 ≤ e1 ∧ e1 ≤ 971
  ∧ shr_m mrs * 2 ^ (e1 + 1074) ≤ m * 2 ^ (e + 1074).
Proof.
  intros Hm He He' Hval Hshr.
  pose proof (shr_fexp_nonneg m e l Hm) as Hnn. rewrite Hshr in Hnn. simpl in Hnn.
  unfold shr_fexp, shr in Hshr.
  assert (shr_m (shr_record_of_loc m l) = m) as Hrec by (by destruct l as [|[]]).
  assert (0 ≤ shr_m (shr_record_of_loc m l)) as Hrec' by lia.
  assert (fexp prec emax (Zdigits2 m + e) ≤ 971) as Hfexp.
  { unfold fexp, SpecFloat.emin, prec, emax.
    assert (Zdigits2 m ≤ 1024 - e); [|lia].
    apply Zdigits2_upper; [done|lia|].
    replace 2098 with ((1024 - e) + (e + 1074)) in Hval by lia.
    rewrite (Z.pow_add_r 2 (1024 - e) (e + 1074)) in Hval by lia.
    assert (0 < 2 ^ (e + 1074)) by (apply Z.pow_pos_nonneg; lia). nia. }
  destruct (fexp prec emax (Zdigits2 m + e) - e) as [|k|k] eqn:Hk.
  - injection Hshr as <- <-. rewrite Hrec. lia.
  - injection Hshr as <- <-. split; [done|]. split; [lia|]. split; [lia|].
    pose proof (iter_shr_1_half k _ Hrec') as Hhalf. rewrite Hrec in Hhalf.
    replace (e + Z.pos k + 1074) with (Z.pos k + (e + 1074)) by lia.
    rewrite (Z.pow_add_r 2 (Z.pos k) (e + 1074)) by lia.
    assert (0 < 2 ^ (e + 1074)) by (apply Z.pow_pos_nonneg; lia). nia.
  - injection Hshr as <- <-. rewrite Hrec. lia.
Qed.

Lemma round_nearest_even_le m l : round_nearest_even m l ≤ m + 1.
Proof.
  unfold round_nearest_even. destruct l as [|[]]; try lia.
  destruct (Z.even m); lia.
Qed.

Lemma bound308_room : bound308 + 2 ^ 2045 ≤ 2 ^ 2098.
Proof. by vm_compute. Qed.

(** What is below [10^308] rounds to a finite number. *)
Lemma binary_round_aux_finite s m e l :
  0 ≤ m → -1074 ≤ e → e ≤ 0 →
  m * 2 ^ (e + 1074) < bound308 →
  is_finite (binary_round_aux prec emax s m e l) = true.
Proof.
  intros Hm He He' Hval. pose proof bound308_room as Hroom.
  assert (0 < 2 ^ 2045) by (by apply Z.pow_pos_nonneg).
  unfold binary_round_aux.
  destruct (shr_fexp prec emax m e l) as [mrs' e1] eqn:Hshr1.
  apply shr_fexp_bound in Hshr1 as (Hm1 & He1 & He1' & Hval1); [|lia..].
  set (m1 := round_nearest_even (shr_m mrs') (loc_of_shr_record mrs')).
  assert (0 ≤ m1) as Hm1' by (by apply round_nearest_even_nonneg).
  assert (m1 * 2 ^ (e1 + 1074) < 2 ^ 2098) as Hval1'.
  { pose proof (round_nearest_even_le (shr_m mrs') (loc_of_shr_record mrs')).
    fold m1 in H0.
    assert (2 ^ (e1 + 1074) ≤ 2 ^ 2045) by (apply Z.pow_le_mono_r; lia).
    assert (0 < 2 ^ (e1 + 1074)) by (apply Z.pow_pos_nonneg; lia). nia. }
  destruct (shr_fexp prec emax m1 e1 loc_Exact) as [mrs'' e2] eqn:Hshr2.
  apply shr_fexp_bound in Hshr2 as (Hm2 & He2 & He2' & Hval2); [|lia..].
  destruct (shr_m mrs'') as [|p|p]; [done| |lia].
  unfold emax, prec. replace (e2 <=? 1024 - 53) with true; [done|].
  symmetry. apply Z.leb_le. lia.
Qed.

Lemma pow10_spec k : Z.pos (pow10 k) = 10 ^ Z.of_nat k.
Proof.
  induction k as [|k IH]; [done|].
  unfold pow10 in *. simpl Nat.iter. rewrite Pos2Z.inj_mul, IH.
  rewrite Nat2Z.inj_succ, Z.pow_succ_r by lia. done.
Qed.

(** A decimal below [10^308] has a finite binary64. *)
Lemma float_of_decimal_finite neg n k :
  Z.of_N n < 10 ^ (308 + Z.of_nat k) →
  is_finite (float_of_decimal neg n k) = true.
Proof.
  intros Hn. unfold float_of_decimal. destruct n as [|p]; [done|].
  unfold SFdiv. destruct (SFdiv_core_binary _ _ _ _ _ _) as [[mz ez] lz] eqn:Hcore.
  unfold SFdiv_core_binary in Hcore.
  set (e' := Z.min _ _) in Hcore.
  assert (-1074 ≤ e' ∧ e' ≤ 0) as [He He'].
  { subst e'. unfold fexp, SpecFloat.emin, prec, emax. lia. }
  set (m' := match _ with Z0 => _ | Zpos _ => _ | Zneg _ => _ end) in Hcore.
  assert (m' = Z.pos p * 2 ^ (- e')) as Hm'.
  { subst m'. replace (0 - 0 - e') with (- e') by lia.
    destruct (- e') as [|q|q] eqn:Hq; [lia| |lia].
    by rewrite Z.shiftl_mul_pow2. }
  pose proof (Z_div_mod m' (Z.pos (pow10 k)) ltac:(done)) as Hdiv.
  destruct (Z.div_eucl m' (Z.pos (pow10 k))) as [q r].
  injection Hcore as <- <- _. destruct Hdiv as [Hdiv Hr].
  rewrite pow10_spec in *. simpl in Hn.
  rewrite Z.pow_add_r in Hn by lia.
  assert (0 < 10 ^ Z.of_nat k) by (apply Z.pow_pos_nonneg; lia).
  assert (0 < 2 ^ (- e')) by (apply Z.pow_pos_nonneg; lia).
  assert (0 ≤ q) by nia.
  apply binary_round_aux_finite; [done..|].
  unfold bound308.
  replace (2 ^ 1074) with (2 ^ ((- e') + (e' + 1074))) by (f_equal; lia).
  rewrite (Z.pow_add_r 2 (- e') (e' + 1074)) by lia.
  assert (0 < 2 ^ (e' + 1074)) by (apply Z.pow_pos_nonneg; lia).
  assert (q < 10 ^ 308 * 2 ^ (- e')); [|nia].
  assert (q * 10 ^ Z.of_nat k < 10 ^ 308 * 2 ^ (- e') * 10 ^ Z.of_nat k); nia.
Qed.
End FloatBound.

(** * The update call and the forwarding loop *)

Section ForwardFacts.
Variable requests_get : list request → request → result response.

Lemma push_loop_nil url key w :
  push_loop requests_get url key [] w = (Ok tt, w).
Proof. done. Qed.

(** A reading without a temperature: one line, no call. *)
Lemma push_loop_skip url key r rest w :
  temperature_c r = None →
  push_loop requests_get url key (r :: rest) w
  = push_loop requests_get url key rest (printed (skip_line r) w).
Proof.
  intros Hr. unfold push_loop. simpl. unfold mbind, M_bind. simpl.
  by rewrite Hr.
Qed.

(** A reading with a temperature: one call; a response gives one line
    and the loop goes on, an exception leaves the loop. *)
Lemma push_loop_forward url key r rest w t :
  temperature_c r = Some t →
  push_loop requests_get url key (r :: rest) w
  = match requests_get (calls w) (update_request url key r) with
    | Ok resp =>
        push_loop requests_get url key rest
          (printed (update_line r (status_code resp) (take 200 (text resp)))
             (called (update_request url key r) w))
    | Raise e => (Raise e, called (update_request url key r) w)
    end.
Proof.
  intros Hr. unfold push_loop. simpl. unfold mbind, M_bind. simpl.
  rewrite Hr. unfold post_to_base44, get, mbind, M_bind, update_request. simpl.
  by destruct (requests_get _ _).
Qed.

(** The calls of a run are made, in order, for readings that have a
    temperature: none is made for a reading without one. *)
Lemma push_loop_calls url key results : ∀ w,
  ∃ n, calls (push_loop requests_get url key results w).2
       = calls w ++ take n (update_request url key <$> filter (λ r, has_temperature r = true) results).
Proof.
  induction results as [|r rest IH]; intros w.
  - exists 0. simpl. by rewrite (right_id_L [] (++)).
  - destruct (temperature_c r) as [t|] eqn:Hr.
    + rewrite (push_loop_forward _ _ _ _ _ t Hr).
      rewrite filter_cons_True by (unfold has_temperature; by rewrite Hr).
      destruct (requests_get _ _) as [resp|e].
      * destruct (IH (printed (update_line r (status_code resp) (take 200 (text resp)))
                       (called (update_request url key r) w))) as [n Hn].
        exists (S n). rewrite Hn. simpl. by rewrite <- (assoc_L (++)).
      * exists 1. simpl. by rewrite take_0.
    + rewrite (push_loop_skip _ _ _ _ _ Hr).
      rewrite filter_cons_False by (unfold has_temperature; by rewrite Hr).
      destruct (IH (printed (skip_line r) w)) as [n Hn]. by exists n.
Qed.
End ForwardFacts.

(** * [extract_latest] *)

Ltac latin1_text := unfold latin1_text; repeat constructor.

Section ExtractFacts.
Context {U : UnicodeDB} {L : UnicodeLaws U}.

Lemma scan_temperature_ok text : ∃ t, scan_temperature text = Ok t.
Proof.
  destruct (scan_temperature_total text)
    as [->|(pre & num & neg & n & k & _ & _ & _ & _ & _ & ->)]; by eexists.
Qed.

(** On a Latin-1 text the answer is the one computed with the Latin-1
    database. *)
Lemma extract_latest_latin1 text :
  latin1_text text → extract_latest text = extract_latest (U:=latin1) text.
Proof. apply extract_latest_agree; apply _. Qed.

Lemma no_C_no_temp text :
  67%N ∉ text → ∀ pre num, ¬ temp_at text pre num.
Proof.
  intros HC pre num (w & (post & ->) & ws1 & ws2 & -> & _). apply HC.
  rewrite !elem_of_app. right. left. right. right. right. right.
  apply list_elem_of_here.
Qed.

Lemma within_true lo hi c : (lo ≤ c)%N → (c ≤ hi)%N → within lo hi c = true.
Proof.
  intros. unfold within. apply andb_true_iff. split; by apply N.leb_le.
Qed.

Lemma within_false lo hi c : (c < lo)%N ∨ (hi < c)%N → within lo hi c = false.
Proof.
  intros Hc. unfold within. apply andb_false_iff.
  destruct Hc; [left|right]; apply N.leb_gt; lia.
Qed.

Ltac within_tac :=
  repeat match goal with
  | |- context [within ?a ?b ?x] =>
      first [ rewrite (within_true a b x) by lia
            | rewrite (within_false a b x) by lia ]
  | |- context [(?a =? ?b)%N] =>
      first [ rewrite (proj2 (N.eqb_eq a b)) by lia
            | rewrite (proj2 (N.eqb_neq a b)) by lia ]
  end; simpl.

Lemma swapcase_caseless c l :
  (l < 128)%N → c = l ∨ c = ascii_swapcase l → caseless c l.
Proof.
  intros Hl Hc. unfold caseless. rewrite iscased_ascii by done.
  assert (c < 256)%N as Hc256.
  { destruct Hc as [->| ->]; [lia|]. unfold ascii_swapcase, within. bool_cases. }
  rewrite (tolower_latin1 c), (tolower_latin1 l) by lia.
  destruct Hc as [->| ->].
  - destruct (negb _ || negb _); [by left|done].
  - assert ((l < 65) ∨ (65 ≤ l ∧ l ≤ 90) ∨ (90 < l ∧ l < 97)
            ∨ (97 ≤ l ∧ l ≤ 122) ∨ (122 < l))%N as Hcases by lia.
    unfold ascii_swapcase, latin1_tolower, ascii_toupper.
    destruct Hcases as [?|[[? ?]|[[? ?]|[[? ?]|?]]]]; within_tac;
      rewrite ?N.eqb_refl; simpl; auto.
    + destruct (N.eqb_spec l (l + 32)); simpl; [lia|by left].
    + left. lia.
Qed.

Lemma ascii_casing_caseless w l :
  Forall (λ c, (c < 128)%N) l → ascii_casing w l → Forall2 caseless w l.
Proof.
  intros Hl Hw. induction Hw as [|c x w l Hc _ IH]; [constructor|].
  apply Forall_cons in Hl as [Hx Hl]. constructor; [|by apply IH].
  by apply swapcase_caseless.
Qed.

Lemma ascii_casing_ok_shape w :
  ascii_casing w (py "Everything ok") → ok_shape w.
Proof.
  change (py "Everything ok") with (py "Everything" ++ [32%N] ++ py "ok").
  intros Hw. apply Forall2_app_inv_r in Hw as (e & w' & He & Hw' & ->).
  apply Forall2_app_inv_r in Hw' as (ws & o & Hws & Ho & ->).
  exists e, ws, o. split; [done|].
  split; [apply ascii_casing_caseless; [repeat constructor|done]|].
  apply Forall2_cons_inv_r in Hws as (c & t & Hc & ->%Forall2_nil_inv_r & ->).
  split; [done|]. split.
  - constructor; [|constructor].
    assert (c = 32%N) as -> by (by destruct Hc as [->| ->]).
    by rewrite isspace_latin1.
  - apply ascii_casing_caseless; [repeat constructor|done].
Qed.

Lemma extract_latest_no_temp text :
  (∀ pre num, ¬ temp_at text pre num) →
  ∃ ts st, extract_latest text = Ok (None, ts, st).
Proof.
  intros Hno%scan_temperature_None. rewrite extract_latest_scans, Hno.
  simpl. by eexists _, _.
Qed.

Lemma extract_latest_status text :
  (∃ pre w, ok_at text pre w) →
  ∃ t ts, extract_latest text = Ok (t, ts, Some (py "Everything ok")).
Proof.
  intros Hat%scan_status_Some. rewrite extract_latest_scans, Hat.
  destruct (scan_temperature_ok text) as [t ->]. simpl. by eexists _, _.
Qed.
End ExtractFacts.

(** * The letter after the degree sign *)

Section CaseFacts.
Context {U : UnicodeDB} {L : UnicodeLaws U}.

Lemma degree_not_space : isspace degree = false.
Proof. by rewrite isspace_latin1. Qed.

Lemma capital_C_not_space : isspace 67%N = false.
Proof. by rewrite isspace_latin1. Qed.

Lemma small_c_not_space : isspace 99%N = false.
Proof. by rewrite isspace_latin1. Qed.

Lemma spaces_without_degree ws : spaces ws → degree ∉ ws.
Proof.
  intros Hws Hin. unfold spaces in Hws. rewrite Forall_forall in Hws.
  apply Hws in Hin. by rewrite degree_not_space in Hin.
Qed.

(** A character that stands once in a text splits it in one way. *)
Lemma unique_mark (x : char) (a r pre r' : pystr) :
  x ∉ a → x ∉ r → a ++ x :: r = pre ++ x :: r' → pre = a ∧ r' = r.
Proof.
  revert pre. induction a as [|c a IH]; intros [|c' pre] Ha Hr Heq; simpl in *.
  - by injection Heq as ->.
  - injection Heq as <- ->. destruct Hr. rewrite elem_of_app. right.
    apply list_elem_of_here.
  - injection Heq as -> _. destruct Ha. apply list_elem_of_here.
  - injection Heq as <- Heq. apply not_elem_of_cons in Ha as [_ Ha].
    destruct (IH pre Ha Hr Heq) as [-> ->]. done.
Qed.

(** Without a degree sign before white space and a capital C there is no
    occurrence of the temperature shape. *)
Lemma no_degree_C_no_temp text :
  no_degree_C text → ∀ pre num, ¬ temp_at text pre num.
Proof.
  intros Hno pre num (w & (post & ->) & ws1 & ws2 & -> & _ & _ & Hs2).
  apply (Hno (pre ++ num ++ ws1) ws2 post); [|done].
  by rewrite <- !app_assoc.
Qed.

(** A text whose one degree sign is followed by white space and a small
    c has no degree sign before a capital C, whatever capital letters
    stand elsewhere. *)
Lemma small_c_no_degree_C a ws b :
  degree ∉ a → degree ∉ b → spaces ws →
  no_degree_C (a ++ [degree] ++ ws ++ py "c" ++ b).
Proof.
  intros Ha Hb Hws pre ws' post Heq Hws'.
  change (py "c" ++ b) with (99%N :: b) in Heq.
  change (py "C" ++ post) with (67%N :: post) in Heq.
  change ([degree] ++ ?x) with (degree :: x) in Heq.
  apply unique_mark in Heq as [_ Heq]; [|done|].
  - apply (run_unique isspace) in Heq as [_ [=]];
      [done|done|apply capital_C_not_space|apply small_c_not_space].
  - rewrite not_elem_of_app. split; [by apply spaces_without_degree|].
    rewrite not_elem_of_cons. split; [done|done].
Qed.

(** Where the shape stands with a capital C, a temperature is found. *)
Lemma capital_C_has_temp a num ws1 ws2 b :
  numeral num → spaces ws1 → spaces ws2 →
  ∃ f ts st,
    extract_latest (a ++ num ++ ws1 ++ [degree] ++ ws2 ++ py "C" ++ b)
    = Ok (Some f, ts, st).
Proof.
  intros Hnum Hs1 Hs2. rewrite extract_latest_scans.
  destruct (scan_temperature_total
              (a ++ num ++ ws1 ++ [degree] ++ ws2 ++ py "C" ++ b))
    as [Hnone|(pre & num' & neg & n & k & _ & _ & _ & _ & _ & ->)].
  - exfalso. apply (proj1 (scan_temperature_None _) Hnone a num).
    exists (num ++ ws1 ++ [degree] ++ ws2 ++ py "C"). split.
    + exists b. by rewrite <- !app_assoc.
    + by exists ws1, ws2.
  - simpl. by eexists _, _, _.
Qed.
End CaseFacts.

(** * The claims about [extract_latest] *)

Section ExtractClaims.
Context {U : UnicodeDB} {L : UnicodeLaws U}.

(** C1. Where the page text contains the temperature shape, the
    extractor returns as [temperature_c] what [float] makes of the numeral
    of the leftmost occurrence; where it contains none, [temperature_c]
    is [None]. ["7.00°C"] gives 7.0, ["-2°C"] gives -2.0 and ["10 ° C"]
    gives 10.0. *)
Theorem temperature_first_occurrence (text : pystr) :
  (∀ pre num, temp_at text pre num → leftmost (temp_at text) pre →
     ∃ f ts st, float_of_str num = Ok f
       ∧ extract_latest text = Ok (Some f, ts, st))
  ∧ ((∀ pre num, ¬ temp_at text pre num) →
     ∃ ts st, extract_latest text = Ok (None, ts, st))
  ∧ extract_latest (py "7.00" ++ degree :: py "C")
    = Ok (Some (float_of_int 7), None, None)
  ∧ extract_latest (py "-2" ++ degree :: py "C")
    = Ok (Some (float_of_int (-2)), None, None)
  ∧ extract_latest (py "10 " ++ degree :: py " C")
    = Ok (Some (float_of_int 10), None, None).
Proof.
  split; [|split; [|split; [|split]]].
  - intros pre num Hat Hleft. rewrite extract_latest_scans.
    rewrite (scan_temperature_first text pre num Hat Hleft).
    destruct Hat as (w & _ & ws1 & ws2 & _ & Hnum & _).
    destruct (float_of_numeral num Hnum) as (neg & n & k & Hf & _).
    rewrite Hf. simpl. by eexists _, _, _.
  - apply extract_latest_no_temp.
  - rewrite extract_latest_latin1 by latin1_text. by vm_compute.
  - rewrite extract_latest_latin1 by latin1_text. by vm_compute.
  - rewrite extract_latest_latin1 by latin1_text. by vm_compute.
Qed.

(** C5. The extractor returns as [last_update] the leftmost
    word-delimited occurrence of the timestamp shape, as it stands in
    the text; without one, [last_update] is [None].
    ["2026-01-01 12:22:09"] comes back unchanged. *)
Theorem timestamp_first_occurrence (text : pystr) :
  (∀ pre w, ts_at text pre w → leftmost (ts_at text) pre →
     ∃ t st, extract_latest text = Ok (t, Some w, st))
  ∧ ((∀ pre w, ¬ ts_at text pre w) →
     ∃ t st, extract_latest text = Ok (t, None, st))
  ∧ extract_latest (py "2026-01-01 12:22:09")
    = Ok (None, Some (py "2026-01-01 12:22:09"), None)
  ∧ extract_latest (py "... 7.00" ++ degree
                      :: py "C ... 2026-01-01 12:22:09 ... Everything ok ...")
    = Ok (Some (float_of_int 7), Some (py "2026-01-01 12:22:09"),
          Some (py "Everything ok")).
Proof.
  split; [|split; [|split]].
  - intros pre w Hat Hleft. rewrite extract_latest_scans.
    rewrite (scan_timestamp_first text pre w Hat Hleft).
    destruct (scan_temperature_ok text) as [t ->]. simpl. by eexists _, _.
  - intros Hno%scan_timestamp_None. rewrite extract_latest_scans, Hno.
    destruct (scan_temperature_ok text) as [t ->]. simpl. by eexists _, _.
  - rewrite extract_latest_latin1 by latin1_text. by vm_compute.
  - rewrite extract_latest_latin1 by latin1_text. by vm_compute.
Qed.

(** C6. Where the page text contains, up to case and between two word
    boundaries, [Everything], white space and [ok], [status_text] is the
    string ["Everything ok"] whatever the case in the text; otherwise it
    is [None]. ["everything    OK"] is recognised, ["Everything okay"] is
    not. *)
Theorem status_phrase (text : pystr) :
  ((∃ pre w, ok_at text pre w) →
     ∃ t ts, extract_latest text = Ok (t, ts, Some (py "Everything ok")))
  ∧ ((∀ pre w, ¬ ok_at text pre w) →
     ∃ t ts, extract_latest text = Ok (t, ts, None))
  ∧ extract_latest (py "everything    OK")
    = Ok (None, None, Some (py "Everything ok"))
  ∧ extract_latest (py "Everything okay") = Ok (None, None, None).
Proof.
  split; [|split; [|split]].
  - apply extract_latest_status.
  - intros Hno%scan_status_None. rewrite extract_latest_scans, Hno.
    destruct (scan_temperature_ok text) as [t ->]. simpl. by eexists _, _.
  - rewrite extract_latest_latin1 by latin1_text. by vm_compute.
  - rewrite extract_latest_latin1 by latin1_text. by vm_compute.
Qed.

(** C7. The extractor never raises: on every page text it returns a
    triple, in which a field whose shape the text does not contain is
    [None]; and it is a function of the page text, two runs on the same
    text give the same triple. *)
Theorem extract_latest_total (text : pystr) :
  (∃ t ts st, extract_latest text = Ok (t, ts, st)
     ∧ ((∀ pre num, ¬ temp_at text pre num) → t = None)
     ∧ ((∀ pre w, ¬ ts_at text pre w) → ts = None)
     ∧ ((∀ pre w, ¬ ok_at text pre w) → st = None))
  ∧ (∀ r1 r2, extract_latest text = r1 → extract_latest text = r2 → r1 = r2).
Proof.
  split; [|congruence].
  rewrite extract_latest_scans.
  destruct (scan_temperature_ok text) as [t Ht]. rewrite Ht. simpl.
  exists t, (scan_timestamp text), (scan_status text). split; [done|].
  split; [|split].
  - intros Hno%scan_temperature_None. congruence.
  - by intros Hno%scan_timestamp_None.
  - by intros Hno%scan_status_None.
Qed.

(** C10. The temperature scan is case sensitive and the status scan is
    not. A page text without an occurrence of the temperature shape with
    its capital C has no temperature: so a text in which no degree sign
    stands before a capital C, so a text whose one degree marking has a
    small c, whatever capital letters stand elsewhere, as ["7.0°c"] and
    ["iControl 7.0°c"], and so a text without any capital C; with the
    capital C in that place a temperature is found. Every ASCII casing of
    [Everything ok] between two word boundaries sets [status_text]. *)
Theorem temperature_case_sensitive_status_not :
  (∀ text, (∀ pre num, ¬ temp_at text pre num) →
     ∃ ts st, extract_latest text = Ok (None, ts, st))
  ∧ (∀ text, no_degree_C text → ∃ ts st, extract_latest text = Ok (None, ts, st))
  ∧ (∀ a ws b, degree ∉ a → degree ∉ b → spaces ws →
       ∃ ts st, extract_latest (a ++ [degree] ++ ws ++ py "c" ++ b)
                = Ok (None, ts, st))
  ∧ (∀ a num ws1 ws2 b, numeral num → spaces ws1 → spaces ws2 →
       ∃ f ts st,
         extract_latest (a ++ num ++ ws1 ++ [degree] ++ ws2 ++ py "C" ++ b)
         = Ok (Some f, ts, st))
  ∧ (∀ text, 67%N ∉ text → ∃ ts st, extract_latest text = Ok (None, ts, st))
  ∧ extract_latest (py "7.0" ++ degree :: py "c") = Ok (None, None, None)
  ∧ extract_latest (py "iControl 7.0" ++ degree :: py "c") = Ok (None, None, None)
  ∧ (∀ pre w post,
       ascii_casing w (py "Everything ok") → word_delimited pre w post →
       ∃ t ts, extract_latest (pre ++ w ++ post)
               = Ok (t, ts, Some (py "Everything ok")))
  ∧ extract_latest (py "7.0" ++ degree :: py "c eVERYTHING oK")
    = Ok (None, None, Some (py "Everything ok")).
Proof.
  split_and!.
  - apply extract_latest_no_temp.
  - intros text Hno. by apply extract_latest_no_temp, no_degree_C_no_temp.
  - intros a ws b Ha Hb Hws.
    by apply extract_latest_no_temp, no_degree_C_no_temp, small_c_no_degree_C.
  - apply capital_C_has_temp.
  - intros text HC. by apply extract_latest_no_temp, no_C_no_temp.
  - rewrite extract_latest_latin1 by latin1_text. by vm_compute.
  - rewrite extract_latest_latin1 by latin1_text. by vm_compute.
  - intros pre w post Hw Hdel. apply extract_latest_status.
    exists pre, w, post. split; [done|]. split; [|done].
    by apply ascii_casing_ok_shape.
  - rewrite extract_latest_latin1 by latin1_text. by vm_compute.
Qed.
End ExtractClaims.

(** * The claims about the update call and the forwarding loop *)

Lemma when_nonempty_truthy x :
  when_nonempty x = if truthy x then Some (str_or_none x) else None.
Proof. by destruct x as [[|c s]|]. Qed.

Lemma build_params_always key r :
  build_params key r !! "tank_id" = Some (VInt (tank_id r))
  ∧ build_params key r !! "temperature" = Some (float_or_none (temperature_c r)).
Proof.
  unfold build_params.
  destruct (truthy (Some key)), (truthy (tank_code r)),
    (truthy (last_update r)), (truthy (status_text r)); by simplify_map_eq.
Qed.

(** C2. The parameters of the update call always hold [tank_id] and,
    under the key [temperature] (not [temperature_c]), the temperature of
    the reading; [key], [tank_code], [last_update] and [status_text] are
    there exactly when their source is neither [None] nor empty; there is
    no other key. For tank 5 at 7.0 with nothing else and no webhook key
    the parameters are [tank_id: 5, temperature: 7.0]. *)
Theorem build_params_keys (webhook_key : pystr) (r : reading) :
  let p := build_params webhook_key r in
  p !! "tank_id" = Some (VInt (tank_id r))
  ∧ p !! "temperature" = Some (float_or_none (temperature_c r))
  ∧ p !! "temperature_c" = None
  ∧ p !! "key" = when_nonempty (Some webhook_key)
  ∧ p !! "tank_code" = when_nonempty (tank_code r)
  ∧ p !! "last_update" = when_nonempty (last_update r)
  ∧ p !! "status_text" = when_nonempty (status_text r)
  ∧ (∀ k, is_Some (p !! k) →
       k ∈ ["tank_id"; "temperature"; "key"; "tank_code"; "last_update"; "status_text"])
  ∧ build_params [] (Reading 5 None (Some (float_of_int 7)) None None)
    = <["temperature" := VFloat (float_of_int 7)]> {["tank_id" := VInt 5]}.
Proof.
  cbv zeta. rewrite !when_nonempty_truthy. unfold build_params.
  change (str_or_none (Some webhook_key)) with (VStr webhook_key).
  destruct (truthy (Some webhook_key)), (truthy (tank_code r)),
    (truthy (last_update r)), (truthy (status_text r));
    (split_and!; [by simplify_map_eq..| |done]);
    intros k [v Hk]; rewrite !elem_of_cons;
    repeat (apply lookup_insert_Some in Hk as [[<- _]|[_ Hk]]; [by auto 10|]);
    by rewrite lookup_empty in Hk.
Qed.

Section ForwardClaims.
Variable requests_get : list request → request → result response.



(** C9. The loop skips a reading only when its temperature is [None]:
    a reading with a temperature, 0.0 included, is forwarded. Its turn
    makes the update call, with that temperature among the parameters,
    and prints the line of the response, not a skip line. *)
Theorem forward_any_temperature (url key : pystr) (r : reading)
    (rest : list reading) (w : world) (t : float64) :
  temperature_c r = Some t →
  (∃ more, calls (push_loop requests_get url key (r :: rest) w).2
           = calls w ++ update_request url key r :: more)
  ∧ params (update_request url key r) !! "temperature" = Some (VFloat t)
  ∧ params (update_request url key r) !! "tank_id" = Some (VInt (tank_id r))
  ∧ stdout (push_loop requests_get url key [r] w).2
    = stdout w
      ++ match requests_get (calls w) (update_request url key r) with
         | Ok resp => [update_line r (status_code resp) (take 200 (text resp))]
         | Raise _ => []
         end.
Proof.
  intros Hr. split_and!.
  - rewrite (push_loop_forward _ _ _ _ _ _ t Hr).
    destruct (requests_get _ _) as [resp|e]; [|by exists []].
    destruct (push_loop_calls requests_get url key rest
                (printed (update_line r (status_code resp) (take 200 (text resp)))
                   (called (update_request url key r) w))) as [n ->].
    simpl. rewrite <- (assoc_L (++)). by eexists.
  - destruct (build_params_always key r) as [_ Ht]. simpl. by rewrite Ht, Hr.
  - by destruct (build_params_always key r) as [Hid _].
  - rewrite (push_loop_forward _ _ _ _ _ _ t Hr).
    destruct (requests_get _ _) as [resp|e]; simpl; [done|].
    by rewrite (right_id_L [] (++)).
Qed.
End ForwardClaims.

Import Samples.

Section TemperatureValue.
Context {U : UnicodeDB} {L : UnicodeLaws U}.

(** C8, as the code has it. [temperature_c] is [None] exactly when the
    page text contains no temperature shape. Otherwise it is what [float]
    makes of the numeral of the leftmost occurrence: never NaN, negative
    exactly when the numeral starts with [-], and finite when the numeral
    has at most 308 characters; a longer numeral can give an infinity. *)
Theorem temperature_value (text : pystr) :
  ∃ t ts st, extract_latest text = Ok (t, ts, st)
    ∧ (t = None ↔ ∀ pre num, ¬ temp_at text pre num)
    ∧ ∀ f, t = Some f →
        f ≠ S754_nan
        ∧ ∃ pre num, temp_at text pre num ∧ leftmost (temp_at text) pre
            ∧ float_of_str num = Ok f
            ∧ (sign_bit f = Some true ↔ ∃ s, num = 45%N :: s)
            ∧ (length num ≤ 308 → is_finite f = true).
Proof.
  rewrite extract_latest_scans.
  destruct (scan_temperature_total text)
    as [Hnone|(pre & num & neg & n & k & Hat & Hleft & Hf & Hneg & Hbound & Hsome)].
  - rewrite Hnone. simpl. eexists _, _, _. split; [done|]. split; [|done].
    split; [intros _|done]. by apply scan_temperature_None.
  - rewrite Hsome. simpl. eexists _, _, _. split; [done|]. split.
    + split; [done|]. intros Hno. by destruct (Hno pre num).
    + intros f [= <-]. split; [apply float_of_decimal_not_nan|].
      exists pre, num. split; [done|]. split; [done|]. split; [done|]. split.
      * rewrite <- Hneg.
        destruct (float_of_decimal_sign neg n k) as [->|[->|(m & e & ->)]];
          simpl; split; congruence.
      * intros Hlen. apply float_of_decimal_finite.
        eapply Z.lt_le_trans; [exact Hbound|]. apply Z.pow_le_mono_r; lia.
Qed.
End TemperatureValue.

(** C8, as stated, fails: the temperature of a page with a numeral of 310
    digits is infinite. *)
Lemma temperature_infinite :
  extract_latest (U:=latin1) huge_page = Ok (Some (S754_infinity false), None, None)
  ∧ is_finite (S754_infinity false) = false.
Proof. split; [by vm_compute|done]. Qed.


(** * The theorems at concrete inputs *)

Ltac decimal_run := unfold decimals; repeat (constructor; [reflexivity|]); constructor.

Lemma seven_degrees_numeral : numeral (U:=latin1) (py "7.00").
Proof.
  exists [], (py "7"), (py ".00"). split; [reflexivity|]. split; [by left|].
  split; [done|]. split; [decimal_run|]. right. exists (py "00").
  split; [reflexivity|]. split; [done|decimal_run].
Defined.

Lemma seven_degrees_at : temp_at (U:=latin1) seven_degrees [] (py "7.00").
Proof.
  exists seven_degrees. split; [by exists []|]. exists [], [].
  split; [reflexivity|]. split; [apply seven_degrees_numeral|].
  split; constructor.
Defined.

Lemma timestamp_at :
  ts_at (U:=latin1) (py "2026-01-01 12:22:09") [] (py "2026-01-01 12:22:09").
Proof.
  exists []. split; [reflexivity|]. split.
  - exists (py "2026"), (py "01"), (py "01"), (py " "), (py "12"), (py "22"), (py "09").
    split; [reflexivity|].
    repeat (split; [split; [reflexivity|decimal_run]|]).
    split; [done|]. split; [by repeat constructor|].
    repeat split; try reflexivity; decimal_run.
  - split; by vm_compute.
Defined.

Lemma shouted_casing : ascii_casing (py "EVERYTHING OK") (py "Everything ok").
Proof.
  unfold ascii_casing.
  repeat (constructor; [first [by left | by right]|]). constructor.
Defined.

Lemma shouted_delimited : word_delimited (U:=latin1) [] (py "EVERYTHING OK") [].
Proof. split; by vm_compute. Defined.

Lemma first_place (occ : pystr → pystr → Prop) : leftmost occ [].
Proof. intros pre' x _. simpl. lia. Defined.

Lemma temperature_first_occurrence_witness :
  ∃ f ts st, float_of_str (U:=latin1) (py "7.00") = Ok f
    ∧ extract_latest (U:=latin1) seven_degrees = Ok (Some f, ts, st).
Proof.
  apply (proj1 (temperature_first_occurrence (U:=latin1) seven_degrees) [] (py "7.00")).
  - apply seven_degrees_at.
  - apply first_place.
Defined.

Lemma timestamp_first_occurrence_witness :
  ∃ t st, extract_latest (U:=latin1) (py "2026-01-01 12:22:09")
          = Ok (t, Some (py "2026-01-01 12:22:09"), st).
Proof.
  apply (proj1 (timestamp_first_occurrence (U:=latin1) (py "2026-01-01 12:22:09"))
           [] (py "2026-01-01 12:22:09")).
  - apply timestamp_at.
  - apply first_place.
Defined.

Lemma status_phrase_witness :
  ∃ t ts, extract_latest (U:=latin1) (py "EVERYTHING OK")
          = Ok (t, ts, Some (py "Everything ok")).
Proof.
  apply (proj1 (status_phrase (U:=latin1) (py "EVERYTHING OK"))).
  exists [], (py "EVERYTHING OK"), []. split; [reflexivity|].
  split; [apply ascii_casing_ok_shape, shouted_casing|apply shouted_delimited].
Defined.

Lemma extract_latest_total_witness :
  ∃ t ts st, extract_latest (U:=latin1) page = Ok (t, ts, st)
    ∧ ((∀ pre num, ¬ temp_at (U:=latin1) page pre num) → t = None)
    ∧ ((∀ pre w, ¬ ts_at (U:=latin1) page pre w) → ts = None)
    ∧ ((∀ pre w, ¬ ok_at (U:=latin1) page pre w) → st = None).
Proof. exact (proj1 (extract_latest_total (U:=latin1) page)). Defined.

Lemma temperature_value_witness :
  ∃ t ts st, extract_latest (U:=latin1) minus_two = Ok (t, ts, st)
    ∧ (t = None ↔ ∀ pre num, ¬ temp_at (U:=latin1) minus_two pre num)
    ∧ ∀ f, t = Some f →
        f ≠ S754_nan
        ∧ ∃ pre num, temp_at (U:=latin1) minus_two pre num
            ∧ leftmost (temp_at (U:=latin1) minus_two) pre
            ∧ float_of_str (U:=latin1) num = Ok f
            ∧ (sign_bit f = Some true ↔ ∃ s, num = 45%N :: s)
            ∧ (length num ≤ 308 → is_finite f = true).
Proof. exact (temperature_value (U:=latin1) minus_two). Defined.

Lemma no_degree_in_iControl : degree ∉ py "iControl 7.0".
Proof. apply (bool_decide_unpack _). by vm_compute. Defined.

Lemma temperature_case_sensitive_status_not_witness :
  (∃ ts st, extract_latest (U:=latin1)
              (py "iControl 7.0" ++ [degree] ++ [] ++ py "c" ++ [])
            = Ok (None, ts, st))
  ∧ (∃ t ts, extract_latest (U:=latin1) ([] ++ py "EVERYTHING OK" ++ [])
             = Ok (t, ts, Some (py "Everything ok"))).
Proof.
  pose proof (temperature_case_sensitive_status_not (U:=latin1))
    as (_ & _ & Hsmall & _ & _ & _ & _ & Hstatus & _).
  split.
  - apply (Hsmall (py "iControl 7.0") [] []).
    + apply no_degree_in_iControl.
    + apply not_elem_of_nil.
    + constructor.
  - apply (Hstatus [] (py "EVERYTHING OK") []).
    + apply shouted_casing.
    + apply shouted_delimited.
Defined.



Lemma forward_any_temperature_witness :
  (∃ more, calls (push_loop (answers 200 "OK") endpoint [] [tank_zero] start).2
           = calls start ++ update_request endpoint [] tank_zero :: more)
  ∧ params (update_request endpoint [] tank_zero) !! "temperature"
    = Some (VFloat (S754_zero false)).
Proof.
  pose proof (forward_any_temperature (answers 200 "OK") endpoint []
                tank_zero [] start (S754_zero false) eq_refl) as (H1 & H2 & _).
  exact (conj H1 H2).
Defined.

Import Tanks.

(** * What [str] makes of an [int] *)

Lemma py_inj (s1 s2 : string) : py s1 = py s2 → s1 = s2.
Proof.
  unfold py. revert s2. induction s1 as [|a s1 IH]; intros [|b s2]; simpl; try done.
  intros [= Hab Hs]. f_equal; [|by apply IH].
  rewrite <- (ascii_N_embedding a), <- (ascii_N_embedding b). by rewrite Hab.
Qed.

Lemma py_app (s1 s2 : string) : py (s1 ++ s2)%string = py s1 ++ py s2.
Proof. unfold py. induction s1 as [|a s1 IH]; simpl; [done|]. by rewrite IH. Qed.

Lemma to_int_nonnil (n : Z) : Z.to_int n ≠ Decimal.Pos Decimal.Nil ∧ Z.to_int n ≠ Decimal.Neg Decimal.Nil.
Proof.
  destruct n as [|p|p]; simpl; split; try done;
    intros [= H]; by apply DecimalPos.Unsigned.to_uint_nonnil in H.
Qed.

Lemma str_int_inj (n1 n2 : Z) : str_int n1 = str_int n2 → n1 = n2.
Proof.
  unfold str_int. intros H%py_inj. apply DecimalZ.to_int_inj.
  destruct (to_int_nonnil n1) as [H1 H1'], (to_int_nonnil n2) as [H2 H2'].
  pose proof (NilZero.isi _ H1 H1') as E1. pose proof (NilZero.isi _ H2 H2') as E2.
  rewrite H in E1. congruence.
Qed.

Lemma uint_chars (d : Decimal.uint) :
  Forall (λ c, int_char c = true) (py (NilEmpty.string_of_uint d)).
Proof. induction d; simpl; constructor; done. Qed.

Lemma str_int_chars (n : Z) : Forall (λ c, int_char c = true) (str_int n).
Proof.
  unfold str_int. destruct (Z.to_int n) as [d|d]; simpl.
  - destruct d; try apply uint_chars. by repeat constructor.
  - constructor; [done|]. destruct d; try apply uint_chars. by repeat constructor.
Qed.

Lemma str_int_nonempty (n : Z) : str_int n ≠ [].
Proof.
  unfold str_int. destruct (to_int_nonnil n) as [H1 H2].
  destruct (Z.to_int n) as [d|d]; [|done]. by destruct d.
Qed.

(** A word that ends at the first occurrence of a separator is read back
    in one way only. *)
Lemma split_at_first (sep : char) (s1 s2 t1 t2 : pystr) :
  sep ∉ s1 → sep ∉ s2 → s1 ++ sep :: t1 = s2 ++ sep :: t2 → s1 = s2 ∧ t1 = t2.
Proof.
  revert s2. induction s1 as [|a s1 IH]; intros [|b s2] H1 H2 E; simpl in *.
  - by injection E as ->.
  - injection E as <- _. by apply not_elem_of_cons in H2 as [? _].
  - injection E as -> _. by apply not_elem_of_cons in H1 as [? _].
  - injection E as -> E. apply not_elem_of_cons in H1 as [_ H1].
    apply not_elem_of_cons in H2 as [_ H2].
    destruct (IH s2 H1 H2 E) as [-> ->]. done.
Qed.

Lemma str_int_without (sep : char) (n : Z) : int_char sep = false → sep ∉ str_int n.
Proof.
  intros Hsep Hin. pose proof (str_int_chars n) as Hall.
  rewrite Forall_forall in Hall. apply Hall in Hin. congruence.
Qed.

(** * The whole run of the forwarding loop *)

Section LoopFacts.
Variable requests_get : list request → request → result response.

Lemma reported_skip r : temperature_c r = None → reported r (skip_line r).
Proof. intros Hr. unfold reported. by rewrite Hr. Qed.

Lemma reported_update r t code body :
  temperature_c r = Some t → reported r (update_line r code (take 200 body)).
Proof. intros Hr. unfold reported. rewrite Hr. by exists code, body. Qed.

(** Every run of the loop goes through the first [k] readings, reports
    each of them on a line and calls for those with a temperature; it ends
    there, or the call for the next reading raises. *)
Lemma push_loop_trace url key results : ∀ w,
  ∃ k lines,
    Forall2 reported (take k results) lines
    ∧ stdout (push_loop requests_get url key results w).2 = stdout w ++ lines
    ∧ match (push_loop requests_get url key results w).1 with
      | Ok _ =>
          k = length results
          ∧ calls (push_loop requests_get url key results w).2
            = calls w ++ updates url key results
      | Raise e =>
          ∃ r, results !! k = Some r ∧ has_temperature r = true
            ∧ requests_get (calls w ++ updates url key (take k results))
                (update_request url key r) = Raise e
            ∧ calls (push_loop requests_get url key results w).2
              = calls w ++ updates url key (take k results) ++ [update_request url key r]
      end.
Proof.
  unfold updates. induction results as [|r rest IH]; intros w.
  - exists 0, []. simpl. rewrite !(right_id_L [] (++)). by repeat split.
  - destruct (temperature_c r) as [t|] eqn:Hr.
    + rewrite (push_loop_forward _ _ _ _ _ _ t Hr).
      assert (has_temperature r = true) as Hhas by (unfold has_temperature; by rewrite Hr).
      destruct (requests_get _ _) as [resp|e] eqn:Hget.
      * destruct (IH (printed (update_line r (status_code resp) (take 200 (text resp)))
                       (called (update_request url key r) w)))
          as (k & lines & Hlines & Hout & Hend).
        exists (S k), (update_line r (status_code resp) (take 200 (text resp)) :: lines).
        split; [constructor; [by eapply reported_update|done]|].
        split; [rewrite Hout; simpl; by rewrite <- (assoc_L (++))|].
        destruct (push_loop _ _ _ rest _).1 as [[]|e].
        -- destruct Hend as [-> Hcalls]. split; [done|].
           rewrite Hcalls. simpl. rewrite filter_cons_True by done.
           by rewrite <- (assoc_L (++)).
        -- destruct Hend as (r' & Hk & Hhas' & Hraise & Hcalls). exists r'.
           simpl. rewrite filter_cons_True by done. simpl in *.
           rewrite <- !(assoc_L (++)) in *. done.
      * exists 0, []. simpl. rewrite !(right_id_L [] (++)).
        split; [constructor|]. split; [done|]. by exists r.
    + rewrite (push_loop_skip _ _ _ _ _ _ Hr).
      assert (has_temperature r ≠ true) as Hhas by (unfold has_temperature; by rewrite Hr).
      destruct (IH (printed (skip_line r) w)) as (k & lines & Hlines & Hout & Hend).
      exists (S k), (skip_line r :: lines).
      split; [constructor; [by apply reported_skip|done]|].
      split; [rewrite Hout; simpl; by rewrite <- (assoc_L (++))|].
      destruct (push_loop _ _ _ rest _).1 as [[]|e].
      * destruct Hend as [-> Hcalls]. split; [done|].
        rewrite Hcalls. simpl. by rewrite filter_cons_False by done.
      * destruct Hend as (r' & Hk & Hhas' & Hraise & Hcalls). exists r'.
        simpl. by rewrite filter_cons_False by done.
Qed.

Lemma world_eta (w : world) : w = World (stdout w) (calls w).
Proof. by destruct w. Qed.

(** X1. When every call gets a response, of whatever status, the loop
    ends normally: it has printed one line per reading, in the order of
    the readings (the skip line for a reading without temperature, an
    update line otherwise), and has made one call per reading with a
    temperature, in that order. *)
Theorem push_loop_answered url key results w :
  (∀ log rq, ∃ resp, requests_get log rq = Ok resp) →
  ∃ lines,
    push_loop requests_get url key results w
    = (Ok tt, World (stdout w ++ lines) (calls w ++ updates url key results))
    ∧ Forall2 reported results lines.
Proof.
  intros Hnet.
  destruct (push_loop_trace url key results w) as (k & lines & Hlines & Hout & Hend).
  destruct (push_loop requests_get url key results w) as [[[]|e] w'] eqn:Hrun; simpl in *.
  - destruct Hend as [-> Hcalls]. exists lines. rewrite firstn_all in Hlines.
    split; [|done]. by rewrite (world_eta w'), Hout, Hcalls.
  - destruct Hend as (r & _ & _ & Hraise & _).
    destruct (Hnet (calls w ++ updates url key (take k results))
                (update_request url key r)) as [resp Hresp].
    congruence.
Qed.

(** X2. The loop raises only what a call raised. When it ends with an
    exception, the readings before some reading [r] have been reported
    and called for as usual, the call for [r] was made and raised that
    exception, and nothing was printed or sent for [r] after it nor for
    any later reading. *)
Theorem push_loop_raises url key results w e :
  (push_loop requests_get url key results w).1 = Raise e →
  ∃ k r lines,
    results !! k = Some r ∧ has_temperature r = true
    ∧ requests_get (calls w ++ updates url key (take k results))
        (update_request url key r) = Raise e
    ∧ (push_loop requests_get url key results w).2
      = World (stdout w ++ lines)
          (calls w ++ updates url key (take k results) ++ [update_request url key r])
    ∧ Forall2 reported (take k results) lines.
Proof.
  intros Hrun.
  destruct (push_loop_trace url key results w) as (k & lines & Hlines & Hout & Hend).
  rewrite Hrun in Hend. destruct Hend as (r & Hk & Hhas & Hraise & Hcalls).
  exists k, r, lines. split; [done|]. split; [done|]. split; [done|].
  split; [|done].
  by rewrite (world_eta (push_loop requests_get url key results w).2), Hout, Hcalls.
Qed.

(** X3. Without [BASE44_UPDATE_URL], or with an empty one, the end of
    [main] prints nothing and calls nothing, whatever the readings. With
    one, the line [Pushing to Base44...] comes first, also when there is
    no reading. So the output is unchanged exactly when there is no URL. *)
Theorem push_updates_url base44_update_url key results w :
  (no_url base44_update_url →
     push_updates requests_get base44_update_url key results w = (Ok tt, w))
  ∧ (∀ c u, base44_update_url = Some (c :: u) →
       ∃ lines,
         stdout (push_updates requests_get base44_update_url key results w).2
         = stdout w ++ pushing_line :: lines)
  ∧ (stdout (push_updates requests_get base44_update_url key results w).2 = stdout w
     ↔ no_url base44_update_url).
Proof.
  assert (∀ c u, ∃ lines,
            stdout (push_updates requests_get (Some (c :: u)) key results w).2
            = stdout w ++ pushing_line :: lines) as Hsome.
  { intros c u. unfold push_updates, mbind, M_bind, print. simpl.
    destruct (push_loop_trace (c :: u) key results
                (World (stdout w ++ [pushing_line]) (calls w)))
      as (k & lines & _ & Hout & _).
    exists lines. unfold pushing_line in *. rewrite Hout. simpl.
    by rewrite <- (assoc_L (++)). }
  split; [by intros [->| ->]|]. split; [by intros c u ->|]. split.
  - intros Hout. destruct base44_update_url as [[|c u]|]; [by right| |by left].
    destruct (Hsome c u) as [lines Hlines].
    assert (stdout w = stdout w ++ pushing_line :: lines) as Heq
      by (etrans; [symmetry; exact Hout|exact Hlines]).
    apply (f_equal length) in Heq. rewrite length_app in Heq. simpl in Heq. lia.
  - by intros [->| ->].
Qed.

End LoopFacts.

(** * The report lines and the page address *)

Lemma int_char_space : int_char 32%N = false.
Proof. done. Qed.

Lemma int_char_slash : int_char 47%N = false.
Proof. done. Qed.

(** X6. A report line says which tank it is about and what happened: two
    update lines are equal only for the same tank id, status and body
    text, two skip lines only for the same tank id, and a skip line is
    never an update line. *)
Theorem report_lines_distinct (r1 r2 : reading) (code1 code2 : Z)
    (body1 body2 : pystr) :
  (update_line r1 code1 body1 = update_line r2 code2 body2
   ↔ tank_id r1 = tank_id r2 ∧ code1 = code2 ∧ body1 = body2)
  ∧ (skip_line r1 = skip_line r2 ↔ tank_id r1 = tank_id r2)
  ∧ skip_line r1 ≠ update_line r2 code2 body2.
Proof.
  split; [|split].
  - unfold update_line. split; [|by intros (-> & -> & ->)].
    intros H. apply app_inv_head in H.
    change (py " -> ") with (32%N :: py "-> ") in H.
    apply split_at_first in H as [Hid H];
      [|apply str_int_without, int_char_space..].
    apply str_int_inj in Hid. apply (app_inv_head (py "-> ")) in H.
    change (py " ") with [32%N] in H.
    apply split_at_first in H as [Hcode H];
      [|apply str_int_without, int_char_space..].
    apply str_int_inj in Hcode. done.
  - unfold skip_line. split; [|by intros ->].
    intros H. apply app_inv_head in H.
    apply app_inv_tail in H. by apply str_int_inj.
  - done.
Qed.

(** X7. The page address of a tank tells the tank: two addresses are
    equal only for the same tank id and the same tank code, also when the
    code holds a slash. *)
Theorem tank_detail_url_inj (id1 id2 : Z) (code1 code2 : pystr) :
  (tank_detail_url id1 code1 = tank_detail_url id2 code2
   ↔ id1 = id2 ∧ code1 = code2)
  ∧ tank_detail_url 12 (py "AB/1")
    = py "http://icontrol.paccool.be/en/tankdetail/12/AB/1".
Proof.
  split; [|done]. split; [|by intros [-> ->]].
  unfold tank_detail_url. intros H. do 2 apply app_inv_head in H.
  change (py "/") with [47%N] in H.
  apply split_at_first in H as [Hid H];
    [|apply str_int_without, int_char_slash..].
  by apply str_int_inj in Hid.
Qed.

Lemma lookup_insert_congr (m m' : gmap string value) (i k : string) (x : value) :
  m !! k = m' !! k → <[i := x]> m !! k = <[i := x]> m' !! k.
Proof.
  intros Hm. destruct (decide (i = k)) as [->|Hik].
  - by rewrite !lookup_insert_eq.
  - by rewrite !lookup_insert_ne.
Qed.

(** X8. The webhook key goes into the parameter [key] and nowhere else:
    without that entry the parameters are those built with no key. *)
Theorem build_params_key_only (webhook_key : pystr) (r : reading) :
  delete "key" (build_params webhook_key r) = build_params [] r
  ∧ ∀ k, k ≠ "key" → build_params webhook_key r !! k = build_params [] r !! k.
Proof.
  assert (∀ k, k ≠ "key" → build_params webhook_key r !! k = build_params [] r !! k)
    as Hframe.
  { intros k Hk. unfold build_params.
    destruct webhook_key as [|c key]; [done|]. simpl.
    destruct (truthy (tank_code r)), (truthy (last_update r)),
      (truthy (status_text r));
      repeat apply lookup_insert_congr; by rewrite lookup_insert_ne. }
  split; [|done]. apply map_eq. intros k.
  destruct (decide (k = "key")) as [->|Hk].
  - rewrite lookup_delete_eq. unfold build_params. simpl.
    destruct (truthy (tank_code r)), (truthy (last_update r)),
      (truthy (status_text r)); by simplify_map_eq.
  - rewrite lookup_delete_ne by done. by apply Hframe.
Qed.

(** * More on [extract_latest] and on [fetch_one_tank] *)

Section ExtractMore.
Context {U : UnicodeDB} {L : UnicodeLaws U}.

Lemma decimal_isword c : isdecimal c = true → isword c = true.
Proof.
  intros Hc. unfold isword, isalnum. rewrite Hc.
  by rewrite orb_true_r.
Qed.

Lemma C_not_decimal : isdecimal 67%N = false.
Proof. by rewrite isdecimal_latin1. Qed.

Lemma C_not_space : isspace 67%N = false.
Proof. by rewrite isspace_latin1. Qed.

Lemma decimals_without_C ds : decimals ds → 67%N ∉ ds.
Proof.
  intros Hds Hin. unfold decimals in Hds. rewrite Forall_forall in Hds.
  apply Hds in Hin. by rewrite C_not_decimal in Hin.
Qed.

Lemma spaces_without_C ws : spaces ws → 67%N ∉ ws.
Proof.
  intros Hws Hin. unfold spaces in Hws. rewrite Forall_forall in Hws.
  apply Hws in Hin. by rewrite C_not_space in Hin.
Qed.

Lemma scan_timestamp_Some text w :
  scan_timestamp text = Some w → ∃ pre, ts_at text pre w ∧ leftmost (ts_at text) pre.
Proof.
  unfold scan_timestamp.
  destruct (search false ts_pattern text) as [m|] eqn:Hs; [|done].
  apply search_ts_Some in Hs as (pre & w' & Hat & Hleft & ->).
  intros [= <-]. by exists pre.
Qed.

Lemma extract_latest_Ok text t ts st :
  extract_latest text = Ok (t, ts, st) →
  scan_temperature text = Ok t ∧ scan_timestamp text = ts ∧ scan_status text = st.
Proof.
  rewrite extract_latest_scans.
  destruct (scan_temperature text) as [t'|e]; simpl; [|done].
  by intros [= -> -> ->].
Qed.

Lemma ts_shape_layout w :
  ts_shape w →
  19 ≤ length w ∧ decimals (take 4 w)
  ∧ w !! 4 = Some 45%N ∧ w !! 7 = Some 45%N.
Proof.
  intros (y & mo & d & ws & h & mi & s & -> & [Ly Hy] & [Lmo Hmo] & [Ld Hd]
            & Hne & Hws & [Lh Hh] & [Lmi Hmi] & [Ls Hs]).
  unfold pystr, char in *. split; [|split; [|split]].
  - rewrite !length_app, Ly, Lmo, Ld, Lh, Lmi, Ls. simpl.
    destruct ws; [done|]. simpl. lia.
  - by rewrite take_app_length' by done.
  - rewrite lookup_app_r by lia. by rewrite Ly.
  - rewrite lookup_app_r by lia. rewrite Ly. simpl.
    rewrite lookup_app_r by lia. by rewrite Lmo.
Qed.

(** X9. When [last_update] is not [None], it is the leftmost
    word-delimited timestamp of the page text, as it stands there: at
    least 19 characters, four digits first and a dash in the fifth and in
    the eighth place. *)
Theorem last_update_occurrence text t w st :
  extract_latest text = Ok (t, Some w, st) →
  ∃ pre, ts_at text pre w ∧ leftmost (ts_at text) pre
    ∧ 19 ≤ length w ∧ decimals (take 4 w)
    ∧ w !! 4 = Some 45%N ∧ w !! 7 = Some 45%N.
Proof.
  intros (_ & Hts & _)%extract_latest_Ok.
  apply scan_timestamp_Some in Hts as (pre & Hat & Hleft).
  exists pre. split; [done|]. split; [done|].
  destruct Hat as (post & _ & Hshape & _). by apply ts_shape_layout.
Qed.

Lemma word_end_decimal l c : isdecimal c = true → word_end (l ++ [c]) = true.
Proof.
  intros Hc. unfold word_end. rewrite last_snoc. by apply decimal_isword.
Qed.

Lemma digits_n_last n w :
  digits_n (S n) w → ∃ w' c, w = w' ++ [c] ∧ isdecimal c = true.
Proof.
  intros [Hlen Hw]. destruct (decide (w = [])) as [->|Hne]; [done|].
  apply exists_last in Hne as (w' & c & ->). exists w', c. split; [done|].
  by apply Forall_app in Hw as [_ [Hc _]%Forall_cons].
Qed.

(** X10. The timestamp scan checks digits and punctuation, not the
    calendar: every text of the timestamp's layout is returned as it
    stands, whatever the numbers (month 99, hour 77), with any white space
    between date and time; such a text has no temperature. *)
Theorem timestamp_not_validated y mo d ws h mi s :
  digits_n 4 y → digits_n 2 mo → digits_n 2 d → ws ≠ [] → spaces ws →
  digits_n 2 h → digits_n 2 mi → digits_n 2 s →
  ∃ st,
    extract_latest
      (y ++ py "-" ++ mo ++ py "-" ++ d ++ ws ++ h ++ py ":" ++ mi ++ py ":" ++ s)
    = Ok (None,
          Some (y ++ py "-" ++ mo ++ py "-" ++ d ++ ws ++ h ++ py ":" ++ mi ++ py ":" ++ s),
          st).
Proof.
  intros Hy Hmo Hd Hne Hws Hh Hmi Hs.
  set (w := y ++ py "-" ++ mo ++ py "-" ++ d ++ ws ++ h ++ py ":" ++ mi ++ py ":" ++ s).
  rewrite extract_latest_scans.
  assert (scan_temperature w = Ok None) as ->.
  { apply scan_temperature_None, no_C_no_temp. subst w.
    rewrite !not_elem_of_app.
    destruct Hy as [_ Hy], Hmo as [_ Hmo], Hd as [_ Hd], Hh as [_ Hh],
      Hmi as [_ Hmi], Hs as [_ Hs].
    repeat split;
      first [ by apply decimals_without_C | by apply spaces_without_C
            | by intros [=]%list_elem_of_singleton ]. }
  assert (scan_timestamp w = Some w) as ->; [|by eexists].
  apply (scan_timestamp_first w [] w); [|intros pre' x _; simpl; lia].
  exists []. split; [by rewrite (right_id_L [] (++))|]. split.
  - by exists y, mo, d, ws, h, mi, s.
  - split.
    + rewrite (right_id_L [] (++)). simpl. subst w.
      destruct Hy as [Ly Hy]. destruct y as [|c y]; [done|]. simpl.
      apply Forall_cons in Hy as [Hc _]. by rewrite (decimal_isword c Hc).
    + simpl. subst w. apply digits_n_last in Hs as (s' & c & -> & Hc).
      rewrite !(assoc_L (++)). by rewrite word_end_decimal.
Qed.

(** What [float] makes of a numeral, from its parts. *)
Lemma float_of_body_parts neg ip fd n :
  ip ≠ [] → decimals ip → decimals fd → digits_value 0 (ip ++ fd) = Some n →
  float_of_body neg (ip ++ fraction fd) = Ok (float_of_decimal neg n (length fd)).
Proof.
  intros Hne Hip Hfd Hn. unfold float_of_body, fraction.
  destruct fd as [|c fd].
  - rewrite (right_id_L [] (++)) in *.
    assert (span_decimal ip = (ip, [])) as -> by by apply span_decimal_all.
    rewrite (right_id_L [] (++)), Hn. by destruct ip.
  - change (py "." ++ c :: fd) with (46%N :: c :: fd).
    assert (span_decimal (ip ++ 46%N :: c :: fd) = (ip, 46%N :: c :: fd)) as ->
      by (apply span_decimal_run; [done|apply point_not_decimal]).
    rewrite N.eqb_refl, Hn. by destruct ip.
Qed.

Lemma float_of_str_parts neg ip fd n :
  ip ≠ [] → decimals ip → decimals fd → digits_value 0 (ip ++ fd) = Some n →
  float_of_str (sign_of neg ++ ip ++ fraction fd)
  = Ok (float_of_decimal neg n (length fd)).
Proof.
  intros Hne Hip Hfd Hn. destruct neg; simpl.
  - by apply float_of_body_parts.
  - rewrite <- (float_of_body_parts false ip fd n) by done.
    destruct ip as [|c ip]; [done|]. simpl.
    apply Forall_cons in Hip as [Hc _].
    destruct (N.eqb_spec c 45) as [->|_]; [by rewrite minus_not_decimal in Hc|].
    destruct (N.eqb_spec c 43) as [->|_]; [by rewrite plus_not_decimal in Hc|].
    done.
Qed.

Lemma numeral_parts neg ip fd :
  ip ≠ [] → decimals ip → decimals fd → numeral (sign_of neg ++ ip ++ fraction fd).
Proof.
  intros Hne Hip Hfd. exists (sign_of neg), ip, (fraction fd).
  split; [done|]. split; [destruct neg; [by right|by left]|].
  split; [done|]. split; [done|].
  destruct fd as [|c fd]; [by left|right]. by exists (c :: fd).
Qed.

Lemma scan_temperature_parts neg ip fd n ws1 ws2 rest :
  ip ≠ [] → decimals ip → decimals fd → digits_value 0 (ip ++ fd) = Some n →
  spaces ws1 → spaces ws2 →
  scan_temperature
    ((sign_of neg ++ ip ++ fraction fd) ++ ws1 ++ [degree] ++ ws2 ++ py "C" ++ rest)
  = Ok (Some (float_of_decimal neg n (length fd))).
Proof.
  intros Hne Hip Hfd Hn Hws1 Hws2.
  set (num := sign_of neg ++ ip ++ fraction fd).
  rewrite (scan_temperature_first _ [] num).
  - unfold num. by rewrite (float_of_str_parts neg ip fd n).
  - exists (num ++ ws1 ++ [degree] ++ ws2 ++ py "C"). split.
    + exists rest. rewrite app_nil_l, <- !app_assoc. done.
    + exists ws1, ws2. split; [done|]. split; [by apply numeral_parts|done].
  - intros pre' x _. simpl. lia.
Qed.


Lemma binary_round_aux_opp s m e l :
  binary_round_aux prec emax (negb s) m e l
  = SFopp (binary_round_aux prec emax s m e l).
Proof.
  unfold binary_round_aux.
  destruct (shr_fexp prec emax m e l) as [mrs' e'].
  destruct (shr_fexp prec emax _ e' loc_Exact) as [mrs'' e''].
  destruct (shr_m mrs'') as [|p|p]; [done| |done].
  by destruct (e'' <=? emax - prec)%Z.
Qed.

Lemma float_of_decimal_opp n k :
  float_of_decimal true n k = SFopp (float_of_decimal false n k).
Proof.
  unfold float_of_decimal. destruct n as [|p]; [done|].
  unfold SFdiv. destruct (SFdiv_core_binary _ _ _ _ _ _) as [[mz ez] lz].
  apply (binary_round_aux_opp false).
Qed.

(** Two texts that agree up to the end of an occurrence have the same
    occurrences up to there. *)
Lemma prefix_occurrence (a b post post' x y : pystr) :
  a ++ b ++ post = x ++ y ++ post' → length a + length b ≤ length x + length y →
  ∃ post'', x ++ y = a ++ b ++ post''.
Proof.
  intros Heq Hlen. exists (drop (length (a ++ b)) (x ++ y)).
  rewrite !(assoc_L (++)) in Heq. rewrite (assoc_L (++)).
  apply (f_equal (take (length (a ++ b)))) in Heq as Htake.
  rewrite take_app_length in Htake.
  rewrite take_app_le in Htake by (rewrite !length_app; lia).
  rewrite Htake at 1. by rewrite take_drop.
Qed.

Lemma minus_not_space : isspace 45%N = false.
Proof. by rewrite isspace_latin1. Qed.

Lemma decimals_without_minus ds : decimals ds → 45%N ∉ ds.
Proof.
  intros Hds Hin. unfold decimals in Hds. rewrite Forall_forall in Hds.
  apply Hds in Hin. by rewrite minus_not_decimal in Hin.
Qed.

Lemma spaces_without_minus ws : spaces ws → 45%N ∉ ws.
Proof.
  intros Hws Hin. unfold spaces in Hws. rewrite Forall_forall in Hws.
  apply Hws in Hin. by rewrite minus_not_space in Hin.
Qed.

(** An occurrence of the temperature shape starts with a minus sign or
    a digit and has no minus sign after its first character. *)
Lemma temp_shape_head num w :
  temp_shape num w →
  ∃ c body, w = c :: body ∧ (c = 45%N ∨ isdecimal c = true) ∧ 45%N ∉ body.
Proof.
  intros (ws1 & ws2 & -> & (sign & ip & fp & -> & Hsign & Hne & Hip & Hfp) & Hs1 & Hs2).
  assert (45%N ∉ fp ++ ws1 ++ [degree] ++ ws2 ++ py "C") as Hrest.
  { rewrite !not_elem_of_app. repeat split.
    - destruct Hfp as [->|(fd & -> & _ & Hfd)]; [apply not_elem_of_nil|].
      rewrite not_elem_of_app. split; [|by apply decimals_without_minus].
      by intros [=]%list_elem_of_singleton.
    - by apply spaces_without_minus.
    - by intros [=]%list_elem_of_singleton.
    - by apply spaces_without_minus.
    - by intros [=]%list_elem_of_singleton. }
  destruct Hsign as [->| ->].
  - destruct ip as [|c ip]; [done|]. apply Forall_cons in Hip as [Hc Hip].
    exists c, (ip ++ fp ++ ws1 ++ [degree] ++ ws2 ++ py "C").
    split; [by rewrite <- !app_assoc|]. split; [by right|].
    rewrite not_elem_of_app. split; [by apply decimals_without_minus|done].
  - exists 45%N, (ip ++ fp ++ ws1 ++ [degree] ++ ws2 ++ py "C").
    split; [by rewrite <- !app_assoc|]. split; [by left|].
    rewrite not_elem_of_app. split; [by apply decimals_without_minus|done].
Qed.

(** No occurrence starts within a prefix that has neither minus sign nor
    digit. *)
Lemma leftmost_after_plain pre s :
  Forall (λ c, c ≠ 45%N ∧ isdecimal c = false) pre →
  leftmost (temp_at (pre ++ s)) pre.
Proof.
  intros Hpre pre' num' (w' & (post' & Heq) & Hshape').
  destruct (decide (length pre ≤ length pre')) as [|Hlt]; [done|exfalso].
  destruct (temp_shape_head num' w' Hshape') as (c & body & -> & Hc & _).
  unfold pystr, char in *.
  apply (f_equal (λ l : list N, l !! length pre')) in Heq. simpl in Heq.
  rewrite lookup_app_l in Heq by lia.
  rewrite lookup_app_r in Heq by lia.
  replace (length pre' - length pre') with 0 in Heq by lia. simpl in Heq.
  apply list_elem_of_lookup_2 in Heq. rewrite Forall_forall in Hpre.
  apply Hpre in Heq as [Hc45 Hcd]. destruct Hc; congruence.
Qed.

(** A minus sign put where the first occurrence starts leaves no room
    for an earlier one. *)
Lemma leftmost_with_minus pre s :
  leftmost (temp_at (pre ++ s)) pre → leftmost (temp_at (pre ++ 45%N :: s)) pre.
Proof.
  intros Hleft pre' num' (w' & (post' & Heq) & Hshape').
  destruct (decide (length pre ≤ length pre')) as [|Hlt]; [done|exfalso].
  destruct (decide (length pre' + length w' ≤ length pre)) as [Hle|Hgt].
  - destruct (prefix_occurrence pre' w' post' (45%N :: s) pre [])
      as [r Hr]; [by rewrite app_nil_l|simpl; lia|].
    rewrite app_nil_r in Hr.
    assert (temp_at (pre ++ s) pre' num') as Hat.
    { exists w'. split; [|done]. exists (r ++ s). rewrite Hr.
      by rewrite <- !app_assoc. }
    apply Hleft in Hat. lia.
  - destruct (temp_shape_head num' w' Hshape') as (c & body & -> & _ & Hbody).
    apply Hbody. unfold pystr, char in *. simpl in Hgt.
    apply (f_equal (λ l : list N, l !! length pre)) in Heq. simpl in Heq.
    rewrite lookup_app_r in Heq by lia.
    replace (length pre - length pre) with 0 in Heq by lia. simpl in Heq.
    rewrite lookup_app_r in Heq by lia.
    destruct (length pre - length pre') as [|i] eqn:Hi; [lia|]. simpl in Heq.
    rewrite lookup_app_l in Heq by lia.
    symmetry in Heq. by apply list_elem_of_lookup_2 in Heq.
Qed.


Lemma numeral_length num : numeral num → 1 ≤ length num.
Proof.
  intros (sign & ip & fp & -> & _ & Hne & _). rewrite !length_app.
  destruct ip; [done|]. simpl. lia.
Qed.

Lemma temp_at_length text pre num : temp_at text pre num → 3 ≤ length text.
Proof.
  intros (w & (post & ->) & ws1 & ws2 & -> & Hnum%numeral_length & _).
  rewrite !length_app. simpl. lia.
Qed.

Lemma ts_at_length text pre w : ts_at text pre w → 19 ≤ length text.
Proof.
  intros (post & -> & (Hlen & _)%ts_shape_layout & _). rewrite !length_app. lia.
Qed.

Lemma ok_at_length text pre w : ok_at text pre w → 13 ≤ length text.
Proof.
  intros (post & -> & (e & ws & o & -> & He%Forall2_length & Hne & _
                        & Ho%Forall2_length) & _).
  rewrite !length_app, He, Ho. destruct ws; [done|]. simpl. lia.
Qed.

(** X13. Every field needs room: a page text of fewer than 3 characters
    has no temperature, one of fewer than 19 no timestamp, one of fewer
    than 13 no status; the empty page gives three times [None]. *)
Theorem fields_need_room text :
  ∃ t ts st, extract_latest text = Ok (t, ts, st)
    ∧ (length text < 3 → t = None)
    ∧ (length text < 19 → ts = None)
    ∧ (length text < 13 → st = None).
Proof.
  rewrite extract_latest_scans.
  destruct (scan_temperature text) as [t|e] eqn:Ht;
    [|destruct (scan_temperature_ok text) as [t' Ht']; congruence].
  simpl. eexists _, _, _. split; [done|]. split; [|split].
  - intros Hlen. assert (scan_temperature text = Ok None) as Hnone; [|congruence].
    apply scan_temperature_None. intros pre num Hat%temp_at_length. lia.
  - intros Hlen. apply scan_timestamp_None. intros pre w Hat%ts_at_length. lia.
  - intros Hlen. apply scan_status_None. intros pre w Hat%ok_at_length. lia.
Qed.

(** The letter C ends an occurrence of the temperature shape and stands
    nowhere else in it. *)
Lemma temp_shape_C num w :
  temp_shape num w → ∃ body, w = body ++ [67%N] ∧ 67%N ∉ body.
Proof.
  intros (ws1 & ws2 & -> & (sign & ip & fp & -> & Hsign & _ & Hip & Hfp) & Hs1 & Hs2).
  exists ((sign ++ ip ++ fp) ++ ws1 ++ [degree] ++ ws2).
  split; [by rewrite <- !app_assoc|].
  rewrite !not_elem_of_app. repeat split.
  - destruct Hsign as [->| ->]; [apply not_elem_of_nil|].
    by intros [=]%list_elem_of_singleton.
  - by apply decimals_without_C.
  - destruct Hfp as [->|(fd & -> & _ & Hfd)]; [apply not_elem_of_nil|].
    rewrite not_elem_of_app. split; [|by apply decimals_without_C].
    by intros [=]%list_elem_of_singleton.
  - by apply spaces_without_C.
  - by intros [=]%list_elem_of_singleton.
  - by apply spaces_without_C.
Qed.

Lemma temp_at_first_stays pre num w post post' :
  temp_shape num w → leftmost (temp_at (pre ++ w ++ post)) pre →
  leftmost (temp_at (pre ++ w ++ post')) pre.
Proof.
  intros Hshape Hleft pre' num' (w' & (post'' & Heq) & Hshape').
  destruct (decide (length pre ≤ length pre')) as [|Hlt]; [done|exfalso].
  destruct (temp_shape_C num w Hshape) as (body & -> & _).
  destruct (temp_shape_C num' w' Hshape') as (body' & Hw' & HC').
  destruct (decide (length pre' + length w' ≤ length pre + length (body ++ [67%N])))
    as [Hle|Hgt].
  - destruct (prefix_occurrence pre' w' post'' post' pre (body ++ [67%N]))
      as [rest Hrest]; [done|done|].
    assert (temp_at (pre ++ (body ++ [67%N]) ++ post) pre' num') as Hat.
    { exists w'. split; [|done]. exists (rest ++ post).
      rewrite (assoc_L (++) pre), Hrest. by rewrite <- !app_assoc. }
    apply Hleft in Hat. lia.
  - apply HC'. subst w'. rewrite length_app in Hgt. simpl in Hgt.
    rewrite length_app in Hgt. simpl in Hgt.
    apply (f_equal (λ l : list N, l !! (length pre + length body))) in Heq.
    unfold pystr, char in *. simpl in Heq.
    rewrite lookup_app_r in Heq by lia.
    rewrite <- app_assoc in Heq. rewrite lookup_app_r in Heq by lia.
    replace (length pre + length body - length pre - length body) with 0 in Heq by lia.
    simpl in Heq.
    rewrite lookup_app_r in Heq by lia.
    rewrite <- app_assoc in Heq. rewrite lookup_app_l in Heq by lia.
    symmetry in Heq. by apply list_elem_of_lookup_2 in Heq.
Qed.

(** X14. The temperature is decided by the page text up to the end of
    the first occurrence of the temperature shape: what follows can be
    replaced by any text without changing [temperature_c]. *)
Theorem temperature_first_decides pre num w post post' :
  temp_shape num w → leftmost (temp_at (pre ++ w ++ post)) pre →
  ∃ f ts st ts' st',
    float_of_str num = Ok f
    ∧ extract_latest (pre ++ w ++ post) = Ok (Some f, ts, st)
    ∧ extract_latest (pre ++ w ++ post') = Ok (Some f, ts', st').
Proof.
  intros Hshape Hleft.
  assert (∀ p, temp_at (pre ++ w ++ p) pre num) as Hat
    by (intros p; exists w; split; [by exists p|done]).
  pose proof (temp_at_first_stays pre num w post post' Hshape Hleft) as Hleft'.
  rewrite !extract_latest_scans.
  rewrite (scan_temperature_first _ pre num (Hat post) Hleft).
  rewrite (scan_temperature_first _ pre num (Hat post') Hleft').
  destruct Hshape as (ws1 & ws2 & _ & Hnum & _).
  destruct (float_of_numeral num Hnum) as (neg & n & k & Hf & _).
  rewrite Hf. simpl. by eexists _, _, _, _, _.
Qed.

(** X15. [fetch_one_tank] does not raise on any page text: it returns a
    reading with the tank id and the tank code it was given, and with the
    three fields that [extract_latest] finds in the text. *)
Theorem fetch_one_tank_total text id code :
  ∃ r, fetch_one_tank text id code = Ok r
    ∧ tank_id r = id ∧ tank_code r = Some code
    ∧ extract_latest text = Ok (temperature_c r, last_update r, status_text r).
Proof.
  unfold fetch_one_tank. rewrite extract_latest_scans.
  destruct (scan_temperature_ok text) as [t ->]. simpl. by eexists.
Qed.
End ExtractMore.

(** * From the page to the update call *)

Lemma build_params_tank_code key r :
  build_params key r !! "tank_code" = when_nonempty (tank_code r).
Proof.
  rewrite when_nonempty_truthy. unfold build_params.
  destruct (truthy (Some key)), (truthy (tank_code r)),
    (truthy (last_update r)), (truthy (status_text r)); by simplify_map_eq.
Qed.

Section PageToCall.
Context {U : UnicodeDB} {L : UnicodeLaws U}.
Variable requests_get : list request → request → result response.

(** X16. A tank goes from its page to the update call as follows. When
    the page text has no temperature shape, the loop prints the skip line
    with the tank id and calls nothing. When it has one, the loop makes
    one call to the update URL, whose parameters carry the tank id, the
    tank code (when not empty) and the temperature read from the page. *)
Theorem fetch_then_push text id code url key w :
  ∃ r, fetch_one_tank text id code = Ok r
    ∧ ((∀ pre num, ¬ temp_at text pre num) →
       push_loop requests_get url key [r] w
       = (Ok tt,
          printed (py "Skip tank " ++ str_int id ++ py " - temperature not found") w))
    ∧ ((∃ pre num, temp_at text pre num) →
       ∃ f, extract_latest text = Ok (Some f, last_update r, status_text r)
         ∧ calls (push_loop requests_get url key [r] w).2
           = calls w ++ [Request url (build_params key r) 30]
         ∧ build_params key r !! "tank_id" = Some (VInt id)
         ∧ build_params key r !! "tank_code" = when_nonempty (Some code)
         ∧ build_params key r !! "temperature" = Some (VFloat f)).
Proof.
  unfold fetch_one_tank. rewrite extract_latest_scans.
  destruct (scan_temperature text) as [[f|]|e] eqn:Hscan; simpl.
  - eexists. split; [done|]. split.
    + intros Hno%scan_temperature_None. congruence.
    + intros _. exists f. split; [done|].
      set (r := Reading id (Some code) (Some f) (scan_timestamp text) (scan_status text)).
      split.
      * rewrite (push_loop_forward _ _ _ r [] w f eq_refl).
        by destruct (requests_get _ _).
      * destruct (build_params_always key r) as [Hid Ht].
        split; [done|]. split; [apply build_params_tank_code|done].
  - set (r := Reading id (Some code) None (scan_timestamp text) (scan_status text)).
    exists r. split; [done|]. split.
    + intros _. by rewrite (push_loop_skip _ _ _ r [] w eq_refl).
    + intros (pre & num & Hat).
      by destruct (proj1 (scan_temperature_None text) Hscan pre num).
  - destruct (scan_temperature_ok text) as [t Ht]. congruence.
Qed.
End PageToCall.

(** * The further theorems at concrete inputs *)

Lemma digits_9999 : digits_n (U:=latin1) 4 (py "9999").
Proof. split; [reflexivity|decimal_run]. Defined.

Lemma digits_99 : digits_n (U:=latin1) 2 (py "99").
Proof. split; [reflexivity|decimal_run]. Defined.

Lemma digits_77 : digits_n (U:=latin1) 2 (py "77").
Proof. split; [reflexivity|decimal_run]. Defined.

Lemma one_space : spaces (U:=latin1) (py " ").
Proof. by repeat constructor. Defined.

Lemma seven_degrees_shape : temp_shape (U:=latin1) (py "7.00") seven_degrees.
Proof.
  exists [], []. split; [reflexivity|]. split; [apply seven_degrees_numeral|].
  split; constructor.
Defined.

Lemma push_loop_answered_witness :
  ∃ lines,
    push_loop (answers 200 "OK") endpoint [] [tank_blind; tank_a] start
    = (Ok tt, World (stdout start ++ lines)
                (calls start ++ updates endpoint [] [tank_blind; tank_a]))
    ∧ Forall2 reported [tank_blind; tank_a] lines.
Proof.
  apply (push_loop_answered (answers 200 "OK") endpoint [] [tank_blind; tank_a] start).
  intros log rq. by eexists.
Defined.

Lemma push_loop_raises_witness :
  ∃ k r lines,
    [tank_blind; tank_a; tank_zero] !! k = Some r ∧ has_temperature r = true
    ∧ times_out (calls start ++ updates endpoint [] (take k [tank_blind; tank_a; tank_zero]))
        (update_request endpoint [] r) = Raise Timeout
    ∧ (push_loop times_out endpoint [] [tank_blind; tank_a; tank_zero] start).2
      = World (stdout start ++ lines)
          (calls start ++ updates endpoint [] (take k [tank_blind; tank_a; tank_zero])
             ++ [update_request endpoint [] r])
    ∧ Forall2 reported (take k [tank_blind; tank_a; tank_zero]) lines.
Proof.
  apply (push_loop_raises times_out endpoint [] [tank_blind; tank_a; tank_zero]
           start Timeout).
  reflexivity.
Defined.

Lemma last_update_occurrence_witness :
  ∃ pre, ts_at (U:=latin1) page pre (py "2026-01-01 12:22:09")
    ∧ leftmost (ts_at (U:=latin1) page) pre
    ∧ 19 ≤ length (py "2026-01-01 12:22:09")
    ∧ decimals (U:=latin1) (take 4 (py "2026-01-01 12:22:09"))
    ∧ py "2026-01-01 12:22:09" !! 4 = Some 45%N
    ∧ py "2026-01-01 12:22:09" !! 7 = Some 45%N.
Proof.
  apply (last_update_occurrence (U:=latin1) page (Some (float_of_int 7))
           (py "2026-01-01 12:22:09") (Some (py "Everything ok"))).
  by vm_compute.
Defined.

Lemma timestamp_not_validated_witness :
  ∃ st, extract_latest (U:=latin1) (py "9999-99-99 77:99:99")
        = Ok (None, Some (py "9999-99-99 77:99:99"), st).
Proof.
  apply (timestamp_not_validated (U:=latin1) (py "9999") (py "99") (py "99")
           (py " ") (py "77") (py "99") (py "99"));
    first [ apply digits_9999 | apply digits_99 | apply digits_77
          | apply one_space | done ].
Defined.


Lemma temperature_first_decides_witness :
  ∃ f ts st ts' st',
    float_of_str (U:=latin1) (py "7.00") = Ok f
    ∧ extract_latest (U:=latin1) ([] ++ seven_degrees ++ []) = Ok (Some f, ts, st)
    ∧ extract_latest (U:=latin1) ([] ++ seven_degrees ++ py " outside 31" ++ degree :: py "C")
      = Ok (Some f, ts', st').
Proof.
  apply (temperature_first_decides (U:=latin1) [] (py "7.00") seven_degrees []
           (py " outside 31" ++ degree :: py "C")).
  - apply seven_degrees_shape.
  - apply first_place.
Defined.

Lemma fetch_one_tank_total_witness :
  ∃ r, fetch_one_tank (U:=latin1) page 7 (py "A7") = Ok r
    ∧ tank_id r = 7%Z ∧ tank_code r = Some (py "A7")
    ∧ extract_latest (U:=latin1) page
      = Ok (temperature_c r, last_update r, status_text r).
Proof. exact (fetch_one_tank_total (U:=latin1) page 7 (py "A7")). Defined.

Lemma fetch_then_push_witness :
  ∃ r, fetch_one_tank (U:=latin1) page 7 (py "A7") = Ok r
    ∧ ((∀ pre num, ¬ temp_at (U:=latin1) page pre num) →
       push_loop (answers 200 "OK") endpoint [] [r] start
       = (Ok tt,
          printed (py "Skip tank " ++ str_int 7 ++ py " - temperature not found") start))
    ∧ ((∃ pre num, temp_at (U:=latin1) page pre num) →
       ∃ f, extract_latest (U:=latin1) page = Ok (Some f, last_update r, status_text r)
         ∧ calls (push_loop (answers 200 "OK") endpoint [] [r] start).2
           = calls start ++ [Request endpoint (build_params [] r) 30]
         ∧ build_params [] r !! "tank_id" = Some (VInt 7)
         ∧ build_params [] r !! "tank_code" = when_nonempty (Some (py "A7"))
         ∧ build_params [] r !! "temperature" = Some (VFloat f)).
Proof.
  exact (fetch_then_push (U:=latin1) (answers 200 "OK") page 7 (py "A7") endpoint [] start).
Defined.

Lemma plain_prefix :
  Forall (λ c, c ≠ 45%N ∧ isdecimal (U:=latin1) c = false) (py "T= ").
Proof. repeat (constructor; [split; [done|reflexivity]|]). constructor. Defined.


Lemma fields_need_room_witness :
  ∃ t ts st, extract_latest (U:=latin1) (py "7" ++ [degree]) = Ok (t, ts, st)
    ∧ (length (py "7" ++ [degree]) < 3 → t = None)
    ∧ (length (py "7" ++ [degree]) < 19 → ts = None)
    ∧ (length (py "7" ++ [degree]) < 13 → st = None).
Proof. exact (fields_need_room (U:=latin1) (py "7" ++ [degree])). Defined.
